(** * idb companion supervisor (idb/common/companion.py)

    A shallow embedding of the companion process supervisor: the escalating
    teardown [_terminate_process], the scoped acquisition
    [_start_companion_command], the one-shot executor
    [_run_companion_command], the catalog operations built on it and the
    domain-socket handshake [unix_domain_server].

    Python values are modelled as follows.
    - [str] is a list of Unicode code points, [bytes] a list of [byte].
    - An f-string is kept as a constructor that carries the interpolated
      values ([message] for exceptions, [record] for log lines).
    - A synchronous function returns a [result]; a coroutine transforms the
      state of the process it owns, emits a trace of events and ends in an
      [outcome]. *)

From Stdlib Require Import ZArith NArith Strings.Byte Ascii String Sorted Lia.
From stdpp Require Import base option list gmap.

Local Open Scope Z_scope.

(** ** Text and bytes *)

Definition str : Type := list N.
Definition bytes : Type := list byte.

(** An ASCII literal as a Python [str]. *)
Definition u (s : string) : str := N_of_ascii <$> list_ascii_of_string s.
Arguments u s%_string : simpl never.

(** An ASCII literal as Python [bytes]. *)
Definition b (s : string) : bytes := list_byte_of_string s.
Arguments b s%_string : simpl never.

Definition continuation_byte (x : N) : bool := ((128 <=? x) && (x <=? 191))%N.

Definition low6 (x : N) : N := N.land x 63.

(** [bytes.decode()]: strict UTF-8 (no overlong forms, no surrogates, nothing
    above U+10FFFF); [None] stands for [UnicodeDecodeError]. *)
Fixpoint decode (l : bytes) : option str :=
  match l with
  | [] => Some []
  | c0 :: r0 =>
    let b0 := Byte.to_N c0 in
    if (b0 <? 128)%N then cons b0 <$> decode r0
    else
      match r0 with
      | [] => None
      | c1 :: r1 =>
        let b1 := Byte.to_N c1 in
        if ((194 <=? b0) && (b0 <=? 223))%N then
          if continuation_byte b1
          then cons (N.lor (N.shiftl (N.land b0 31) 6) (low6 b1)) <$> decode r1
          else None
        else
          match r1 with
          | [] => None
          | c2 :: r2 =>
            let b2 := Byte.to_N c2 in
            if ((224 <=? b0) && (b0 <=? 239))%N then
              if (if (b0 =? 224)%N then (160 <=? b1) && (b1 <=? 191)
                  else if (b0 =? 237)%N then (128 <=? b1) && (b1 <=? 159)
                  else continuation_byte b1)%N
                 && continuation_byte b2
              then cons (N.lor (N.shiftl (N.land b0 15) 12)
                           (N.lor (N.shiftl (low6 b1) 6) (low6 b2)))
                     <$> decode r2
              else None
            else
              match r2 with
              | [] => None
              | c3 :: r3 =>
                let b3 := Byte.to_N c3 in
                if ((240 <=? b0) && (b0 <=? 244))%N then
                  if (if (b0 =? 240)%N then (144 <=? b1) && (b1 <=? 191)
                      else if (b0 =? 244)%N then (128 <=? b1) && (b1 <=? 143)
                      else continuation_byte b1)%N
                     && continuation_byte b2 && continuation_byte b3
                  then cons (N.lor (N.shiftl (N.land b0 7) 18)
                               (N.lor (N.shiftl (low6 b1) 12)
                                  (N.lor (N.shiftl (low6 b2) 6) (low6 b3))))
                         <$> decode r3
                  else None
                else None
              end
          end
      end
  end.

(** The characters at which [str.splitlines] breaks a line. *)
Definition is_linebreak (c : N) : bool :=
  ((c =? 10) || (c =? 11) || (c =? 12) || (c =? 13) || (c =? 28) || (c =? 29)
   || (c =? 30) || (c =? 133) || (c =? 8232) || (c =? 8233))%N.

(** [str.splitlines()] without [keepends]: a carriage return followed by a
    line feed is one break, and no empty line follows a final break. *)
Fixpoint splitlines (s : str) : list str :=
  match s with
  | [] => []
  | c :: r =>
    if is_linebreak c then
      [] :: match r with
            | c' :: r' => if ((c =? 13) && (c' =? 10))%N then splitlines r'
                          else splitlines r
            | [] => splitlines r
            end
    else
      match splitlines r with
      | [] => [[c]]
      | l :: ls => (c :: l) :: ls
      end
  end.

(** [str.isspace] on one character. *)
Definition is_space (c : N) : bool :=
  (((9 <=? c) && (c <=? 13)) || ((28 <=? c) && (c <=? 32)) || (c =? 133)
   || (c =? 160) || (c =? 5760) || ((8192 <=? c) && (c <=? 8202))
   || (c =? 8232) || (c =? 8233) || (c =? 8239) || (c =? 8287)
   || (c =? 12288))%N.

Fixpoint lstrip (s : str) : str :=
  match s with
  | [] => []
  | c :: r => if is_space c then lstrip r else s
  end.

(** [str.strip()] with no argument. *)
Definition strip (s : str) : str := rev (lstrip (rev (lstrip s))).

(** [sep.join(parts)]. *)
Fixpoint join (sep : str) (parts : list str) : str :=
  match parts with
  | [] => []
  | [x] => x
  | x :: rest => x ++ sep ++ join sep rest
  end.

(** [l[-1]]: the last element, [None] standing for [IndexError]. *)
Definition last_item {A} (l : list A) : option A := last l.


(** ** Data model *)

Definition DEFAULT_COMPANION_COMMAND_TIMEOUT : Z := 120.
Definition DEFAULT_COMPANION_TEARDOWN_TIMEOUT : Z := 30.

Inductive TargetType := SIMULATOR | DEVICE.

(** Modelled from the spec: [idb.common.types.TargetDescription] is not among
    the sources; the fields are those of the spec's data model (the companion
    metadata is left out, nothing here reads it). *)
Record TargetDescription := {
  udid : str;
  name : str;
  state : str;
  target_type : TargetType;
  os_version : str;
  architecture : str;
}.

(** Modelled from the spec: [idb.common.types.ECIDFilter] is not among the
    sources; the spec gives it one string field. *)
Record ECIDFilter := { ecid : str }.

(** [OnlyFilter = Union[TargetType, ECIDFilter]]. *)
Inductive OnlyFilter :=
| OnlyType (t : TargetType)
| OnlyECID (f : ECIDFilter).

(** The values of the dictionary [parse_json_line] is declared to return,
    [Dict[str, Union[int, str]]]. *)
Inductive json_value :=
| JInt (z : Z)
| JStr (s : str).

#[global] Instance TargetType_eq_dec : EqDecision TargetType.
Proof. solve_decision. Defined.
#[global] Instance TargetDescription_eq_dec : EqDecision TargetDescription.
Proof. solve_decision. Defined.
#[global] Instance json_value_eq_dec : EqDecision json_value.
Proof. solve_decision. Defined.

(** The text of an exception, one constructor per f-string of the source,
    with the values it interpolates. *)
Inductive message :=
| Companion_path_not_provided
| Companion_interactions_do_not_work_on_non_macOS_platforms
| Failed_to_run (arguments : list str)
| Timed_out_after (timeout : Z) (joined_arguments : str)
| More_than_one_device_info_found (details : list TargetDescription)
| No_device_info_found (all_details : list TargetDescription)
| No_grpc_path_in (line : bytes)
| Failed_to_parse_json_from (decoded_line : str).

(** The exceptions that travel through the supervisor. [TimeoutError] is the
    builtin, [AsyncioTimeoutError] is [asyncio.TimeoutError]. *)
Inductive exn :=
| IdbException (m : message)
| IdbJsonException (m : message)
| AsyncioTimeoutError
| TimeoutError
| CancelledError
| UnicodeDecodeError
| IndexError
| OtherError (class_name : str).

(** What a synchronous call does: it returns or it raises. *)
Inductive result (A : Type) :=
| Ok (a : A)
| Raise (e : exn).
Arguments Ok {A} a.
Arguments Raise {A} e.

(** What awaiting a coroutine does: it returns, it raises, or it never
    completes. *)
Inductive outcome (A : Type) :=
| Returned (a : A)
| Raised (e : exn)
| Blocked.
Arguments Returned {A} a.
Arguments Raised {A} e.
Arguments Blocked {A}.

Definition settle {A} (r : result A) : outcome A :=
  match r with
  | Ok a => Returned a
  | Raise e => Raised e
  end.

(** A [logging.Logger], by the way it was obtained. [getChild] keeps the two
    values of the f-string [f"{process.pid}:{' '.join(arguments)}"]. *)
Inductive Logger :=
| NamedLogger (logger_name : str)
| getChild (parent : Logger) (pid : Z) (joined_arguments : str).

(** The lines the supervisor logs. *)
Inductive record :=
| Launched_process
| Process_has_exited_with (returncode : Z)
| Stopping_process_with_SIGTERM (timeout : Z)
| Process_has_exited_after_SIGTERM_with (returncode : Z)
| Process_hasnt_exited_SIGKILLing (timeout : Z)
| Ran_successfully (arguments : list str)
| Is_now_booted (target : TargetDescription)
| Done_with_shutting_down (target : TargetDescription)
| Started_domain_sock_server_on (grpc_path : json_value).

Inductive signal := SIGTERM | SIGKILL.

(** What the supervisor does to the outside world, in order. *)
Inductive event :=
| Exec (cmd : list str)
| Kill (pid : Z) (s : signal)
| Info (logger : Logger) (r : record).

(** The child behind a process handle: what the operating system will make
    of it. [lifespan = Some (t, rc)]: left alone it exits [t] seconds after
    launch with return code [rc]; [on_sigterm = Some (d, rc)]: it exits [d]
    seconds after a SIGTERM with return code [rc], [None]: it ignores the
    signal. *)
Record Child := {
  child_pid : Z;
  child_stdout : bytes;
  lifespan : option (Z * Z);
  on_sigterm : option (Z * Z);
}.

(** An [asyncio.subprocess.Process]: the child, the time the event loop has
    spent on it, when SIGTERM was first sent and the bytes of its standard
    output not read yet. *)
Record Process := {
  child : Child;
  clock : Z;
  sigterm_at : option Z;
  unread : bytes;
}.

Record Companion := {
  _companion_path : option str;
  _device_set_path : option str;
  _logger : Logger;
  _companion_command_timeout : Z;
  _companion_teardown_timeout : Z;
}.

(** [Companion.__init__] with its two defaulted parameters. *)
Definition __init__ (companion_path device_set_path : option str)
    (logger : Logger) (companion_command_timeout companion_teardown_timeout : option Z)
  : Companion :=
  {| _companion_path := companion_path;
     _device_set_path := device_set_path;
     _logger := logger;
     _companion_command_timeout :=
       default DEFAULT_COMPANION_COMMAND_TIMEOUT companion_command_timeout;
     _companion_teardown_timeout :=
       default DEFAULT_COMPANION_TEARDOWN_TIMEOUT companion_teardown_timeout |}.

(** What the code takes from outside the sources given: the interpreter, the
    platform, the standard library's JSON reader, the repository's
    [idb.common.format.target_description_from_json] and the operating
    system's answer to a spawn. [timeout_is_builtin] says whether
    [asyncio.TimeoutError] is the builtin [TimeoutError] (CPython from 3.11
    on) or a class of its own (before). *)
Record Host := {
  timeout_is_builtin : bool;
  platform : str;
  json_loads : str -> option (gmap str json_value);
  target_description_from_json : str -> result TargetDescription;
  create_subprocess_exec : list str -> result Child;
}.

(** [except TimeoutError] and [except asyncio.TimeoutError]. *)
Definition is_TimeoutError (h : Host) (e : exn) : bool :=
  match e with
  | TimeoutError => true
  | AsyncioTimeoutError => timeout_is_builtin h
  | _ => false
  end.

Definition is_asyncio_TimeoutError (h : Host) (e : exn) : bool :=
  match e with
  | AsyncioTimeoutError => true
  | TimeoutError => timeout_is_builtin h
  | _ => false
  end.

(** ** Coroutines on an owned process *)

Definition Co (A : Type) : Type := Process -> list event * outcome A * Process.

Definition co_ret {A} (a : A) : Co A := fun p => ([], Returned a, p).

Definition co_bind {A B} (m : Co A) (k : A -> Co B) : Co B := fun p =>
  let '(t1, o, p1) := m p in
  match o with
  | Returned a => let '(t2, o2, p2) := k a p1 in (t1 ++ t2, o2, p2)
  | Raised e => (t1, Raised e, p1)
  | Blocked => (t1, Blocked, p1)
  end.

#[global] Instance Co_ret : MRet Co := @co_ret.
#[global] Instance Co_bind : MBind Co := fun A B k m => co_bind m k.

Definition raise {A} (e : exn) : Co A := fun p => ([], Raised e, p).

Definition emit (e : event) : Co unit := fun p => ([e], Returned tt, p).

(** [logger.info(...)]. *)
Definition info (logger : Logger) (r : record) : Co unit := emit (Info logger r).

(** [try: body except ...: handler]; [handler e = None] when no clause
    matches [e]. *)
Definition try_except {A} (body : Co A) (handler : exn -> option (Co A)) : Co A :=
  fun p =>
    let '(t1, o, p1) := body p in
    match o with
    | Raised e =>
      match handler e with
      | Some hd => let '(t2, o2, p2) := hd p1 in (t1 ++ t2, o2, p2)
      | None => (t1, Raised e, p1)
      end
    | _ => (t1, o, p1)
    end.

(** What leaves a [try ... finally] whose body ended in [o] and whose final
    block ended in [o2]. *)
Definition finally_outcome {A} (o : outcome A) (o2 : outcome unit) : outcome A :=
  match o2 with
  | Returned _ => o
  | Raised e => Raised e
  | Blocked => Blocked
  end.

(** [try: body finally: final]. The final block runs when the body returns
    and when it raises; what it raises replaces the body's outcome. *)
Definition try_finally {A} (body : Co A) (final : Co unit) : Co A := fun p =>
  let '(t1, o, p1) := body p in
  match o with
  | Blocked => (t1, Blocked, p1)
  | _ =>
    let '(t2, o2, p2) := final p1 in
    (t1 ++ t2, finally_outcome o o2, p2)
  end.

(** ** The process handle *)

Definition earliest (x y : option (Z * Z)) : option (Z * Z) :=
  match x, y with
  | Some (t1, _), Some (t2, _) => if t1 <=? t2 then x else y
  | Some _, None => x
  | None, _ => y
  end.

(** When the child exits and with which code, given the signals sent so far. *)
Definition exit_of (p : Process) : option (Z * Z) :=
  earliest (lifespan (child p))
    (match sigterm_at p, on_sigterm (child p) with
     | Some t, Some (d, rc) => Some (t + d, rc)
     | _, _ => None
     end).

(** [process.returncode]: set once the loop has seen the child exit. *)
Definition returncode (p : Process) : option Z :=
  match exit_of p with
  | Some (t, rc) => if t <=? clock p then Some rc else None
  | None => None
  end.

Definition get_returncode : Co (option Z) := fun p => ([], Returned (returncode p), p).

Definition advance_to (t : Z) (p : Process) : Process :=
  {| child := child p; clock := Z.max (clock p) t;
     sigterm_at := sigterm_at p; unread := unread p |}.

(** [process.terminate()]. *)
Definition terminate : Co unit := fun p =>
  ([Kill (child_pid (child p)) SIGTERM], Returned tt,
   {| child := child p; clock := clock p;
      sigterm_at := Some (default (clock p) (sigterm_at p));
      unread := unread p |}).

(** [process.kill()]. *)
Definition kill : Co unit := fun p => ([Kill (child_pid (child p)) SIGKILL], Returned tt, p).

(** [process.wait()]: completes when the child exits, with its return code. *)
Definition process_wait (p : Process) : option (Z * Z) := exit_of p.

(** [process.communicate()]: completes when the child exits, with all of its
    standard output ([stderr] is not piped). *)
Definition process_communicate (p : Process) : option (Z * (bytes * option bytes)) :=
  match exit_of p with
  | Some (t, _) => Some (t, (unread p, None))
  | None => None
  end.

(** [asyncio.wait_for(aw, timeout=timeout)] on a coroutine that, started
    now, completes at the time and with the value [aw] gives. With a timeout
    that is not positive the coroutine has no chance to run. *)
Definition wait_for {A} (aw : Process -> option (Z * A)) (timeout : Z) : Co A := fun p =>
  if timeout <=? 0 then ([], Raised AsyncioTimeoutError, p)
  else
    match aw p with
    | Some (t, a) =>
      if t <=? clock p + timeout then ([], Returned a, advance_to t p)
      else ([], Raised AsyncioTimeoutError, advance_to (clock p + timeout) p)
    | None => ([], Raised AsyncioTimeoutError, advance_to (clock p + timeout) p)
    end.

(** The first line of [l], its line feed included, and what follows. *)
Fixpoint split_line (l : bytes) : option (bytes * bytes) :=
  match l with
  | [] => None
  | c :: r =>
    if Byte.eqb c Byte.x0a then Some ([c], r)
    else '(line, rest) ← split_line r; Some (c :: line, rest)
  end.

(** The limit of an [asyncio.StreamReader], [2 ** 16] bytes. *)
Definition STREAM_LIMIT : Z := 65536.

(** [process.stdout.readline()]: a line with its line feed; at end of file
    what is left, possibly nothing; it never completes while the child lives
    without finishing a line. A line whose line feed lies past the limit of
    the stream, or more than the limit of bytes with no line feed at all,
    raises [ValueError]. *)
Definition readline : Co bytes := fun p =>
  match split_line (unread p) with
  | Some (line, rest) =>
    if STREAM_LIMIT <? Z.of_nat (length line) - 1 then
      ([], Raised (OtherError (u "ValueError")),
       {| child := child p; clock := clock p; sigterm_at := sigterm_at p;
          unread := rest |})
    else
      ([], Returned line,
       {| child := child p; clock := clock p; sigterm_at := sigterm_at p;
          unread := rest |})
  | None =>
    if STREAM_LIMIT <? Z.of_nat (length (unread p)) then
      ([], Raised (OtherError (u "ValueError")),
       {| child := child p; clock := clock p; sigterm_at := sigterm_at p;
          unread := [] |})
    else
      match exit_of p with
      | Some (t, _) =>
        ([], Returned (unread p),
         {| child := child p; clock := Z.max (clock p) t;
            sigterm_at := sigterm_at p; unread := [] |})
      | None => ([], Blocked, p)
      end
  end.

(** The handle [asyncio.create_subprocess_exec] returns for a child. *)
Definition launch (c : Child) : Process :=
  {| child := c; clock := 0; sigterm_at := None; unread := child_stdout c |}.

(** ** The supervisor *)

(** [_terminate_process(process, timeout, logger)]; the process is the state
    the coroutine runs on. *)
Definition _terminate_process (h : Host) (timeout : Z) (logger : Logger) : Co unit :=
  returncode ← get_returncode;
  match returncode with
  | Some returncode => info logger (Process_has_exited_with returncode)
  | None =>
    info logger (Stopping_process_with_SIGTERM timeout);;
    terminate;;
    try_except
      (returncode ← wait_for process_wait timeout;
       info logger (Process_has_exited_after_SIGTERM_with returncode))
      (fun e =>
         if is_TimeoutError h e
         then Some (info logger (Process_hasnt_exited_SIGKILLing timeout);; kill)
         else None)
  end.

Definition _only_arg_from_filter (only : option OnlyFilter) : list str :=
  match only with
  | Some (OnlyType t) =>
    [u "--only"; match t with SIMULATOR => u "simulator" | DEVICE => u "device" end]
  | Some (OnlyECID f) => [u "--only"; u "ecid:" ++ ecid f]
  | None => []
  end.

(** [parse_json_line(line)]. The decoding stands before the [try]. A line
    whose JSON value is not an object of integers and strings has no image in
    the declared return type and is not covered. *)
Definition parse_json_line (h : Host) (line : bytes) : result (gmap str json_value) :=
  match decode line with
  | None => Raise UnicodeDecodeError
  | Some decoded_line =>
    match json_loads h decoded_line with
    | Some parsed => Ok parsed
    | None => Raise (IdbJsonException (Failed_to_parse_json_from decoded_line))
    end
  end.

(** The list [cmd] that [_start_companion_command] builds. *)
Definition command_line (self : Companion) (companion_path : str)
    (arguments : list str) : list str :=
  [companion_path]
  ++ match _device_set_path self with
     | Some device_set_path => [u "--device-set-path"; device_set_path]
     | None => []
     end
  ++ arguments.

(** [async with self._start_companion_command(arguments) as process: body].
    The generator of the context manager runs up to its [yield], the block
    [body] runs on the process yielded, and the [finally] of the generator
    runs when the block returns and when it raises. *)
Definition _start_companion_command {A} (h : Host) (self : Companion)
    (arguments : list str) (body : Co A) : list event * outcome A :=
  match _companion_path self with
  | None =>
    if decide (platform h = u "darwin")
    then ([], Raised (IdbException Companion_path_not_provided))
    else ([], Raised (IdbException Companion_interactions_do_not_work_on_non_macOS_platforms))
  | Some companion_path =>
    let cmd := command_line self companion_path arguments in
    match create_subprocess_exec h cmd with
    | Raise e => ([Exec cmd], Raised e)
    | Ok c =>
      let logger := getChild (_logger self) (child_pid c) (join (u " ") arguments) in
      let '(t, o, _) :=
        (info logger Launched_process;;
         try_finally body
           (_terminate_process h (_companion_teardown_timeout self) logger))
          (launch c) in
      (Exec cmd :: t, o)
    end
  end.

(** [timeout or default] on an [Optional[int]]: [None] and [0] are falsy. *)
Definition or_default (timeout : option Z) (default : Z) : Z :=
  match timeout with
  | Some t => if t =? 0 then default else t
  | None => default
  end.

(** The block of [_run_companion_command] under its [async with]. *)
Definition run_block (h : Host) (self : Companion) (arguments : list str)
    (timeout : Z) : Co str :=
  try_except
    ('(output, _) ← wait_for process_communicate timeout;
     returncode ← get_returncode;
     if decide (returncode = Some 0) then
       info (_logger self) (Ran_successfully arguments);;
       match decode output with
       | Some text => mret text
       | None => raise UnicodeDecodeError
       end
     else raise (IdbException (Failed_to_run arguments)))
    (fun e =>
       if is_asyncio_TimeoutError h e
       then Some (raise (IdbException (Timed_out_after timeout (join (u " ") arguments))))
       else None).

Definition _run_companion_command (h : Host) (self : Companion)
    (arguments : list str) (timeout : option Z) : list event * outcome str :=
  let timeout := or_default timeout (_companion_command_timeout self) in
  _start_companion_command h self arguments (run_block h self arguments timeout).

(** What follows an awaited call in a coroutine that awaits nothing else. *)
Definition and_then {A B} (r : list event * outcome A) (k : A -> result B)
  : list event * outcome B :=
  (r.1, match r.2 with
        | Returned a => settle (k a)
        | Raised e => Raised e
        | Blocked => Blocked
        end).

Definition _run_udid_command (h : Host) (self : Companion) (udid command : str)
    (timeout : option Z) : list event * outcome str :=
  _run_companion_command h self [u "--" ++ command; udid] timeout.

(** [target_description_from_json(output.splitlines()[-1])]. *)
Definition parse_last_line (h : Host) (output : str) : result TargetDescription :=
  match last_item (splitlines output) with
  | Some line => target_description_from_json h line
  | None => Raise IndexError
  end.

Definition create (h : Host) (self : Companion) (device_type os_version : str)
    (timeout : option Z) : list event * outcome TargetDescription :=
  and_then
    (_run_companion_command h self
       [u "--create"; device_type ++ u "," ++ os_version] timeout)
    (parse_last_line h).

Definition boot (h : Host) (self : Companion) (udid : str) (timeout : option Z)
  : list event * outcome unit :=
  and_then (_run_udid_command h self udid (u "boot") timeout) (fun _ => Ok tt).

Definition shutdown (h : Host) (self : Companion) (udid : str) (timeout : option Z)
  : list event * outcome unit :=
  and_then (_run_udid_command h self udid (u "shutdown") timeout) (fun _ => Ok tt).

Definition erase (h : Host) (self : Companion) (udid : str) (timeout : option Z)
  : list event * outcome unit :=
  and_then (_run_udid_command h self udid (u "erase") timeout) (fun _ => Ok tt).

Definition clone (h : Host) (self : Companion) (udid : str)
    (destination_device_set : option str) (timeout : option Z)
  : list event * outcome TargetDescription :=
  let arguments :=
    [u "--clone"; udid]
    ++ match destination_device_set with
       | Some d => [u "--clone-destination-set"; d]
       | None => []
       end in
  and_then (_run_companion_command h self arguments timeout) (parse_last_line h).

Definition delete (h : Host) (self : Companion) (udid : option str)
    (timeout : option Z) : list event * outcome unit :=
  and_then
    (_run_udid_command h self (default (u "all") udid) (u "delete") timeout)
    (fun _ => Ok tt).

(** The list comprehension of [list_targets] over the lines of the output:
    a line that strips to nothing is passed over, every other line is handed
    stripped to [target_description_from_json], in order. *)
Fixpoint parse_lines (h : Host) (lines : list str) : result (list TargetDescription) :=
  match lines with
  | [] => Ok []
  | line :: rest =>
    if (length (strip line) =? 0)%nat then parse_lines h rest
    else
      match target_description_from_json h (strip line) with
      | Raise e => Raise e
      | Ok target =>
        match parse_lines h rest with
        | Ok targets => Ok (target :: targets)
        | Raise e => Raise e
        end
      end
  end.

Definition list_targets (h : Host) (self : Companion) (only : option OnlyFilter)
    (timeout : option Z) : list event * outcome (list TargetDescription) :=
  let arguments := [u "--list"; u "1"] ++ _only_arg_from_filter only in
  and_then (_run_companion_command h self arguments timeout)
    (fun output => parse_lines h (splitlines output)).

(** The part of [target_description] after the listing. *)
Definition select_target (wanted : option str) (all_details : list TargetDescription)
  : result TargetDescription :=
  let details :=
    match wanted with
    | Some x => filter (fun target => udid target = x) all_details
    | None => all_details
    end in
  if (1 <? length details)%nat
  then Raise (IdbException (More_than_one_device_info_found details))
  else if (length details =? 0)%nat
  then Raise (IdbException (No_device_info_found all_details))
  else match details with
       | target :: _ => Ok target
       | [] => Raise IndexError
       end.

Definition target_description (h : Host) (self : Companion) (udid : option str)
    (only : option OnlyFilter) (timeout : option Z)
  : list event * outcome TargetDescription :=
  and_then (list_targets h self only timeout) (select_target udid).

(** [async with self.boot_headless(udid): body]. *)
Definition boot_headless {A} (h : Host) (self : Companion) (udid : str)
    (body : Co A) : list event * outcome A :=
  _start_companion_command h self [u "--headless"; u "1"; u "--boot"; udid]
    (raw ← readline;
     line ← match decode raw with
            | Some line => mret line
            | None => raise UnicodeDecodeError
            end;
     target ← (fun p => ([], settle (target_description_from_json h line), p));
     info (_logger self) (Is_now_booted target);;
     a ← body;
     info (_logger self) (Done_with_shutting_down target);;
     mret a).

(** The block of [unix_domain_server] under its [async with]; [body] is the
    block of the caller, run where the generator yields [grpc_path]. *)
Definition handshake_block {A} (h : Host) (self : Companion)
    (body : json_value -> Co A) : Co A :=
  line ← readline;
  output ← (fun p => ([], settle (parse_json_line h line), p));
  match output !! u "grpc_path" with
  | None => raise (IdbException (No_grpc_path_in line))
  | Some grpc_path =>
    info (_logger self) (Started_domain_sock_server_on grpc_path);;
    body grpc_path
  end.

(** [async with self.unix_domain_server(udid, path, only) as grpc_path: body]. *)
Definition unix_domain_server {A} (h : Host) (self : Companion) (udid path : str)
    (only : option OnlyFilter) (body : json_value -> Co A) : list event * outcome A :=
  _start_companion_command h self
    ([u "--udid"; udid; u "--grpc-domain-sock"; path] ++ _only_arg_from_filter only)
    (handshake_block h self body).

(** ** Observations on traces and processes *)

#[global] Instance signal_eq_dec : EqDecision signal.
Proof. solve_decision. Defined.
#[global] Instance Logger_eq_dec : EqDecision Logger.
Proof. solve_decision. Defined.

Fixpoint count {A} (f : A -> bool) (l : list A) : nat :=
  match l with
  | [] => 0%nat
  | x :: r => ((if f x then 1 else 0) + count f r)%nat
  end.

(** The first line every run of [_terminate_process] logs, on [logger]. *)
Definition opens_teardown (logger : Logger) (e : event) : bool :=
  match e with
  | Info l (Process_has_exited_with _) => bool_decide (l = logger)
  | Info l (Stopping_process_with_SIGTERM _) => bool_decide (l = logger)
  | _ => false
  end.

(** How many runs of [_terminate_process] on [logger] a trace holds. *)
Definition teardown_calls (logger : Logger) (t : list event) : nat :=
  count (opens_teardown logger) t.

Definition sends (s : signal) (e : event) : bool :=
  match e with
  | Kill _ s' => bool_decide (s' = s)
  | _ => false
  end.

(** How many times a trace sends the signal [s]. *)
Definition signals (s : signal) (t : list event) : nat := count (sends s) t.

Definition is_exec (e : event) : bool :=
  match e with
  | Exec _ => true
  | _ => false
  end.

(** The return code [process.wait()] gives when awaited now under
    [asyncio.wait_for] with [timeout], [None] when the wait times out. *)
Definition exits_within (timeout : Z) (p : Process) : option Z :=
  if timeout <=? 0 then None
  else
    match exit_of p with
    | Some (t, rc) => if t <=? clock p + timeout then Some rc else None
    | None => None
    end.

(** The handle once [process.terminate()] was called on it. *)
Definition terminated (p : Process) : Process := (terminate p).2.

(** The handle once a wait under [asyncio.wait_for] timed out on it. *)
Definition timed_out (timeout : Z) (p : Process) : Process :=
  if timeout <=? 0 then p else advance_to (clock p + timeout) p.

(** The teardown of [p] runs to its end: the child had exited, or it exits
    within the timeout once terminated, or the timeout of the wait is the
    exception the handler names. *)
Definition teardown_returns (h : Host) (timeout : Z) (p : Process) : bool :=
  bool_decide (is_Some (returncode p))
  || bool_decide (is_Some (exits_within timeout (terminated p)))
  || timeout_is_builtin h.

(** The words of the spec for [create]: the last line of the output that is
    not empty. *)
Definition spec_last_nonempty_line (output : str) : option str :=
  last (filter (fun line => line <> []) (splitlines output)).

(** The lines [list_targets] hands to the parser: stripped, and not empty. *)
Definition nonblank_lines (output : str) : list str :=
  filter (fun line => line <> []) (strip <$> splitlines output).

(** ** Sample data *)

Definition quoted (s : str) : str := [34%N] ++ s ++ [34%N].

Definition sample_target (id : str) : TargetDescription :=
  {| udid := id; name := u "iPhone 11"; state := u "Shutdown";
     target_type := SIMULATOR; os_version := u "iOS 13.0";
     architecture := u "x86_64" |}.

(** A stand-in for [target_description_from_json]: it reads lines of the one
    shape [{"udid": "<id>"}]. *)
Definition sample_target_description_from_json (data : str) : result TargetDescription :=
  let opening := u "{" ++ quoted (u "udid") ++ u ": " ++ [34%N] in
  let closing := [34%N] ++ u "}" in
  let id := take (length data - length opening - length closing) (drop (length opening) data) in
  if bool_decide (data = opening ++ id ++ closing) && bool_decide (34%N ∉ id)
  then Ok (sample_target id)
  else Raise (OtherError (u "JSONDecodeError")).

(** The line [{"udid": "<id>"}]. *)
Definition sample_json_line (id : str) : str :=
  u "{" ++ quoted (u "udid") ++ u ": " ++ quoted id ++ u "}".

Definition sample_handshake_text : str :=
  u "{" ++ quoted (u "grpc_path") ++ u ": " ++ quoted (u "/tmp/sock") ++ u "}".

(** A stand-in for [json.loads]: it reads the handshake object and the empty
    object. *)
Definition sample_json_loads (text : str) : option (gmap str json_value) :=
  if bool_decide (strip text = sample_handshake_text)
  then Some {[ u "grpc_path" := JStr (u "/tmp/sock") ]}
  else if bool_decide (strip text = u "{}") then Some ∅
  else None.

(** A host on macOS whose every spawn yields the child [c]. *)
Definition sample_host (builtin : bool) (c : Child) : Host :=
  {| timeout_is_builtin := builtin;
     platform := u "darwin";
     json_loads := sample_json_loads;
     target_description_from_json := sample_target_description_from_json;
     create_subprocess_exec := fun _ => Ok c |}.

Definition sample_logger : Logger := NamedLogger (u "idb").

Definition sample_companion : Companion :=
  __init__ (Some (u "/usr/local/bin/idb_companion")) None sample_logger None None.

Definition unconfigured_companion : Companion :=
  __init__ None None sample_logger None None.

(** A child that prints [out] and exits after one second with code [rc]. *)
Definition finishing_child (out : bytes) (rc : Z) : Child :=
  {| child_pid := 4242; child_stdout := out; lifespan := Some (1, rc);
     on_sigterm := Some (0, -15) |}.

(** A child that prints [out], never exits by itself and exits two seconds
    after a SIGTERM. *)
Definition serving_child (out : bytes) : Child :=
  {| child_pid := 4242; child_stdout := out; lifespan := None;
     on_sigterm := Some (2, -15) |}.

(** A child that prints [out], never exits by itself and ignores SIGTERM. *)
Definition stubborn_child (out : bytes) : Child :=
  {| child_pid := 4242; child_stdout := out; lifespan := None;
     on_sigterm := None |}.

Definition encode_ascii (s : str) : bytes :=
  (fun c => default Byte.x00 (Byte.of_N c)) <$> s.

(** The handshake line of a domain-socket server. *)
Definition sample_handshake : bytes := encode_ascii (sample_handshake_text ++ [10%N]).

(** A handshake line that is a JSON object without [grpc_path]. *)
Definition sample_empty_handshake : bytes := encode_ascii (u "{}" ++ [10%N]).

(** A listing of two targets with a blank line between them. *)
Definition sample_listing : bytes :=
  encode_ascii (sample_json_line (u "A1") ++ [10%N] ++ u "   " ++ [10%N]
                ++ sample_json_line (u "B2") ++ [10%N]).

(** A listing of two targets with a malformed line between them. *)
Definition sample_broken_listing : bytes :=
  encode_ascii (sample_json_line (u "A1") ++ [10%N] ++ u "{oops" ++ [10%N]
                ++ sample_json_line (u "B2") ++ [10%N]).

(** A progress line, then the record of the target created. *)
Definition sample_creation : bytes :=
  encode_ascii (u "progress: 50%" ++ [10%N] ++ sample_json_line (u "ABC") ++ [10%N]).

(** The record of the target created, then an empty line. *)
Definition sample_creation_blank_end : bytes :=
  encode_ascii (sample_json_line (u "ABC") ++ [10%N; 10%N]).

(** ** File commands (idb/cli/commands/file.py)

    The helpers that turn the parsed command line of a file command into a
    file container and plain paths. *)

Module File.

(** [argument.split(sep=":", maxsplit=1)]. *)
Fixpoint split_colon_once (argument : str) : list str :=
  match argument with
  | [] => [[]]
  | c :: r =>
    if (c =? 58)%N then [[]; r]
    else
      match split_colon_once r with
      | x :: rest => (c :: x) :: rest
      | [] => [[c]]
      end
  end.

Record BundleWithPath := {
  bundle_id : option str;
  path : str;
}.

(** [BundleWithPath.parse(argument)]. *)
Definition parse (argument : str) : BundleWithPath :=
  match split_colon_once argument with
  | [only] => {| bundle_id := None; path := only |}
  | first :: second :: _ => {| bundle_id := Some first; path := second |}
  | [] => {| bundle_id := None; path := [] |}
  end.

(** The members of [FileContainerType] the file commands name. *)
Inductive FileContainerType := ROOT | MEDIA | CRASHES | PROVISIONING_PROFILES.

(** A value held by an [argparse.Namespace] of a file command. *)
#[warnings="-register-all"]
Inductive value :=
| VNone
| VBool (flag : bool)
| VInt (z : Z)
| VStr (s : str)
| VContainer (t : FileContainerType)
| VBundle (bp : BundleWithPath)
| VList (items : list value).

(** [vars(args)]: the attributes in the order they were set. *)
Definition Namespace : Type := list (str * value).

(** [args.<key>], [None] standing for [AttributeError]. *)
Fixpoint getattr (args : Namespace) (key : str) : option value :=
  match args with
  | [] => None
  | (k, v) :: rest => if bool_decide (k = key) then Some v else getattr rest key
  end.

(** [args.<key> = v]: an attribute that exists keeps its place. *)
Fixpoint setattr (args : Namespace) (key : str) (v : value) : Namespace :=
  match args with
  | [] => [(key, v)]
  | (k, v') :: rest =>
    if bool_decide (k = key) then (k, v) :: rest else (k, v') :: setattr rest key v
  end.

(** The truth value of a Python value. *)
Definition truthy (v : value) : bool :=
  match v with
  | VNone => false
  | VBool flag => flag
  | VInt z => negb (z =? 0)
  | VStr s => negb (bool_decide (s = []))
  | VContainer _ => true
  | VBundle _ => true
  | VList items => negb (bool_decide (items = []))
  end.

(** The first loop of [_extract_bundle_id]: the values, lists opened once. *)
Definition flatten_values (args : Namespace) : list value :=
  flat_map (fun kv => match kv.2 with
                      | VList items => items
                      | v => [v]
                      end) args.

(** One turn of the second loop of [_extract_bundle_id]. *)
Definition note_bundle_id (args : Namespace) (v : value) : Namespace :=
  match v with
  | VBundle bp =>
    match bundle_id bp with
    | Some id => setattr args (u "bundle_id") (VStr id)
    | None => args
    end
  | _ => args
  end.

(** [_extract_bundle_id(args)]: the value returned and [args] as the
    function leaves it. *)
Definition _extract_bundle_id (args : Namespace) : result (value * Namespace) :=
  match getattr args (u "bundle_id") with
  | None => Raise (OtherError (u "AttributeError"))
  | Some VNone =>
    let values := flatten_values args in
    let args' := fold_left note_bundle_id values args in
    match getattr args' (u "bundle_id") with
    | Some v => Ok (v, args')
    | None => Raise (OtherError (u "AttributeError"))
    end
  | Some v => Ok (v, args)
  end.

(** The local function [convert_value] of [_convert_args]. *)
Fixpoint convert_value (v : value) : value :=
  match v with
  | VList items => VList (List.map convert_value items)
  | VBundle bp => VStr (path bp)
  | _ => v
  end.

(** The namespace [_convert_args] builds: every attribute but [bundle_id],
    converted. *)
Fixpoint converted (args : Namespace) : Namespace :=
  match args with
  | [] => []
  | (k, v) :: rest =>
    if bool_decide (k = u "bundle_id") then converted rest
    else (k, convert_value v) :: converted rest
  end.

(** [_convert_args(args)]. *)
Definition _convert_args (args : Namespace) : result (Namespace * value) :=
  match _extract_bundle_id args with
  | Raise e => Raise e
  | Ok (bundle, args') =>
    let args'' := converted args' in
    if truthy bundle then Ok (args'', bundle)
    else
      match getattr args'' (u "container_type") with
      | Some container_type => Ok (args'', container_type)
      | None => Raise (OtherError (u "AttributeError"))
      end
  end.

(** The argument a [BundleWithPath] stands for. *)
Definition render (bp : BundleWithPath) : str :=
  match bundle_id bp with
  | Some id => id ++ [58%N] ++ path bp
  | None => path bp
  end.

(** The bundle ids the second loop of [_extract_bundle_id] meets, in order. *)
Fixpoint carried_ids (values : list value) : list str :=
  match values with
  | [] => []
  | VBundle bp :: rest =>
    match bundle_id bp with
    | Some id => id :: carried_ids rest
    | None => carried_ids rest
    end
  | _ :: rest => carried_ids rest
  end.

(** No [BundleWithPath] in a value, at any depth. *)
Fixpoint bundle_free (v : value) : bool :=
  match v with
  | VBundle _ => false
  | VList items => forallb bundle_free items
  | _ => true
  end.

End File.

(** ** Listing targets on the command line (idb/cli/commands/target.py) *)

Module Target.

(** [a <= b] on Python strings: code point by code point, a prefix first. *)
Fixpoint str_le (a c : str) : bool :=
  match a, c with
  | [], _ => true
  | _ :: _, [] => false
  | x :: a', y :: c' =>
    if (x <? y)%N then true else if (x =? y)%N then str_le a' c' else false
  end.

(** Where a target goes among targets already sorted that came after it:
    before the first one whose name is not smaller. *)
Fixpoint insert_by_name (target : TargetDescription) (l : list TargetDescription)
  : list TargetDescription :=
  match l with
  | [] => [target]
  | x :: rest =>
    if str_le (name target) (name x) then target :: x :: rest
    else x :: insert_by_name target rest
  end.

(** [sorted(targets, key=lambda target: target.name)]: the stable sort of
    Python, as an insertion sort. *)
Fixpoint sorted_by_name (targets : list TargetDescription) : list TargetDescription :=
  match targets with
  | [] => []
  | target :: rest => insert_by_name target (sorted_by_name rest)
  end.

(** What [TargetListCommand.run_with_client] prints, line by line, for the
    targets the client lists. The two formatters of [idb.common.format] are
    not among the sources and are taken as they come. *)
Definition run_with_client (human_format_target_info json_format_target_info :
    TargetDescription -> str) (json : bool) (targets : list TargetDescription)
  : list str :=
  if (length targets =? 0)%nat then
    if negb json then [u "No available targets"] else []
  else
    let targets := sorted_by_name targets in
    let formatter :=
      if json then json_format_target_info else human_format_target_info in
    formatter <$> targets.

End Target.

(** * Properties *)

(** ** Stepping coroutines *)

Ltac co_unfold :=
  unfold mbind, Co_bind, co_bind, mret, Co_ret, co_ret, info, emit, raise,
    get_returncode, try_except, kill in *.

Lemma child_timed_out timeout p : child (timed_out timeout p) = child p.
Proof. unfold timed_out. destruct (timeout <=? 0); reflexivity. Qed.

Lemma wait_for_process_wait timeout p :
  wait_for process_wait timeout p =
  match exits_within timeout p with
  | Some rc =>
    ([], Returned rc,
     advance_to (match exit_of p with Some (t, _) => t | None => 0 end) p)
  | None => ([], Raised AsyncioTimeoutError, timed_out timeout p)
  end.
Proof.
  unfold wait_for, exits_within, timed_out, process_wait.
  destruct (timeout <=? 0); [reflexivity|].
  destruct (exit_of p) as [[t rc]|]; [|reflexivity].
  destruct (t <=? clock p + timeout); reflexivity.
Qed.

Lemma terminate_process_exited h timeout logger p rc :
  returncode p = Some rc ->
  _terminate_process h timeout logger p =
  ([Info logger (Process_has_exited_with rc)], Returned tt, p).
Proof.
  intros Hrc. unfold _terminate_process. co_unfold. rewrite Hrc. reflexivity.
Qed.

Lemma terminate_process_running h timeout logger p :
  returncode p = None ->
  _terminate_process h timeout logger p =
  match exits_within timeout (terminated p) with
  | Some rc =>
    ([Info logger (Stopping_process_with_SIGTERM timeout);
      Kill (child_pid (child p)) SIGTERM;
      Info logger (Process_has_exited_after_SIGTERM_with rc)],
     Returned tt,
     advance_to (match exit_of (terminated p) with Some (t, _) => t | None => 0 end)
       (terminated p))
  | None =>
    if timeout_is_builtin h then
      ([Info logger (Stopping_process_with_SIGTERM timeout);
        Kill (child_pid (child p)) SIGTERM;
        Info logger (Process_hasnt_exited_SIGKILLing timeout);
        Kill (child_pid (child p)) SIGKILL],
       Returned tt, timed_out timeout (terminated p))
    else
      ([Info logger (Stopping_process_with_SIGTERM timeout);
        Kill (child_pid (child p)) SIGTERM],
       Raised AsyncioTimeoutError, timed_out timeout (terminated p))
  end.
Proof.
  intros Hrc. unfold _terminate_process. co_unfold. rewrite Hrc.
  unfold terminate at 1. fold (terminated p).
  change {| child := child p; clock := clock p;
            sigterm_at := Some (default (clock p) (sigterm_at p));
            unread := unread p |} with (terminated p).
  rewrite wait_for_process_wait.
  destruct (exits_within timeout (terminated p)) as [rc|]; [reflexivity|].
  cbn. destruct (timeout_is_builtin h); cbn; [|reflexivity].
  rewrite child_timed_out. reflexivity.
Qed.

(** Whether the teardown runs to its end is what [teardown_returns] says. *)
Lemma terminate_process_outcome h timeout logger p :
  (_terminate_process h timeout logger p).1.2 =
  if teardown_returns h timeout p then Returned tt else Raised AsyncioTimeoutError.
Proof.
  unfold teardown_returns.
  destruct (returncode p) as [rc|] eqn:Hrc.
  - rewrite (terminate_process_exited _ _ _ _ rc Hrc).
    rewrite bool_decide_true by eauto. reflexivity.
  - rewrite (terminate_process_running _ _ _ _ Hrc).
    rewrite (bool_decide_false (is_Some None)) by (intros [? ?]; discriminate).
    destruct (exits_within timeout (terminated p)) as [rc|].
    + rewrite bool_decide_true by eauto. reflexivity.
    + rewrite (bool_decide_false (is_Some None)) by (intros [? ?]; discriminate).
      cbn. destruct (timeout_is_builtin h); reflexivity.
Qed.

(** Every run of the teardown logs its opening line once, sends SIGTERM at
    most once and SIGKILL at most once, and it never waits for ever. *)
Lemma terminate_process_trace h timeout logger p :
  let r := _terminate_process h timeout logger p in
  teardown_calls logger r.1.1 = 1%nat /\
  (signals SIGTERM r.1.1 <= 1)%nat /\
  (signals SIGKILL r.1.1 <= 1)%nat /\
  r.1.2 <> Blocked.
Proof.
  cbv zeta.
  destruct (returncode p) as [rc|] eqn:Hrc.
  - rewrite (terminate_process_exited _ _ _ _ rc Hrc).
    unfold teardown_calls, signals. cbn.
    repeat case_bool_decide; repeat split; try lia; congruence.
  - rewrite (terminate_process_running _ _ _ _ Hrc).
    destruct (exits_within timeout (terminated p)) as [rc|];
      [|destruct (timeout_is_builtin h)];
      unfold teardown_calls, signals; cbn;
      repeat case_bool_decide; repeat split; try lia; congruence.
Qed.

(** ** The scoped acquisition *)

Lemma start_companion_command_spawned {A} h self arguments (body : Co A)
    companion_path c tb ob pb :
  _companion_path self = Some companion_path ->
  create_subprocess_exec h (command_line self companion_path arguments) = Ok c ->
  body (launch c) = (tb, ob, pb) ->
  let logger := getChild (_logger self) (child_pid c) (join (u " ") arguments) in
  let teardown := _terminate_process h (_companion_teardown_timeout self) logger pb in
  _start_companion_command h self arguments body =
  match ob with
  | Blocked =>
    (Exec (command_line self companion_path arguments)
       :: Info logger Launched_process :: tb, Blocked)
  | _ =>
    (Exec (command_line self companion_path arguments)
       :: Info logger Launched_process :: tb ++ teardown.1.1,
     finally_outcome ob teardown.1.2)
  end.
Proof.
  intros Hpath Hexec Hbody. cbv zeta.
  unfold _start_companion_command. rewrite Hpath, Hexec.
  unfold try_finally. co_unfold. rewrite Hbody.
  destruct (_terminate_process h (_companion_teardown_timeout self)
              (getChild (_logger self) (child_pid c) (join (u " ") arguments)) pb)
    as [[tt ot] pt].
  destruct ob; reflexivity.
Qed.

Lemma count_app {A} (f : A -> bool) l1 l2 :
  count f (l1 ++ l2) = (count f l1 + count f l2)%nat.
Proof. induction l1 as [|x l1 IH]; cbn; [reflexivity|]. rewrite IH. lia. Qed.

(** The handle once the teardown ran is finished: the child had exited or
    exited during the wait, or SIGKILL was sent. *)
Lemma terminate_process_terminal h timeout logger p :
  teardown_returns h timeout p = true ->
  let r := _terminate_process h timeout logger p in
  is_Some (returncode r.2) \/ signals SIGKILL r.1.1 = 1%nat.
Proof.
  unfold teardown_returns. intros Hreturns. cbv zeta.
  destruct (returncode p) as [rc|] eqn:Hrc.
  - rewrite (terminate_process_exited _ _ _ _ rc Hrc). left. cbn. rewrite Hrc. eauto.
  - rewrite (terminate_process_running _ _ _ _ Hrc).
    rewrite (bool_decide_false (is_Some None)) in Hreturns
      by (intros [? ?]; discriminate).
    destruct (exits_within timeout (terminated p)) as [rc|] eqn:Hw.
    + left. cbn [snd].
      unfold exits_within in Hw. unfold returncode.
      change (exit_of (advance_to _ (terminated p))) with (exit_of (terminated p)).
      destruct (timeout <=? 0); [discriminate|].
      destruct (exit_of (terminated p)) as [[t rc']|]; [|discriminate].
      destruct (t <=? clock (terminated p) + timeout); [|discriminate].
      cbn [advance_to clock].
      destruct (Z.leb_spec t (Z.max (clock (terminated p)) t)); [eauto|lia].
    + rewrite (bool_decide_false (is_Some None)) in Hreturns
        by (intros [? ?]; discriminate).
      cbn in Hreturns. rewrite Hreturns. right.
      unfold signals. cbn. repeat case_bool_decide; first [reflexivity|congruence].
Qed.

(** C2, at the input where the code departs from the claim. On an
    interpreter where [asyncio.TimeoutError] is not the builtin
    [TimeoutError], with a child that ignores SIGTERM and a block that
    returns: the teardown runs once, sends SIGTERM, its wait times out and
    the timeout leaves it, so the caller gets [asyncio.TimeoutError] and not
    the value of the block, no SIGKILL was sent and the child has not
    exited. *)
Theorem start_companion_command_leaves_child_running :
  _start_companion_command (sample_host false (stubborn_child []))
    sample_companion [u "--boot"; u "A1"] (mret tt)
  = ([Exec [u "/usr/local/bin/idb_companion"; u "--boot"; u "A1"];
      Info (getChild sample_logger 4242 (u "--boot A1")) Launched_process;
      Info (getChild sample_logger 4242 (u "--boot A1"))
        (Stopping_process_with_SIGTERM 30);
      Kill 4242 SIGTERM],
     Raised AsyncioTimeoutError) /\
  teardown_calls (getChild sample_logger 4242 (u "--boot A1"))
    (_start_companion_command (sample_host false (stubborn_child []))
       sample_companion [u "--boot"; u "A1"] (mret tt)).1 = 1%nat /\
  signals SIGKILL
    (_start_companion_command (sample_host false (stubborn_child []))
       sample_companion [u "--boot"; u "A1"] (mret tt)).1 = 0%nat /\
  returncode
    (_terminate_process (sample_host false (stubborn_child [])) 30
       (getChild sample_logger 4242 (u "--boot A1"))
       (launch (stubborn_child []))).2 = None.
Proof. repeat split; vm_compute; reflexivity. Qed.

(** The scoped acquisition. Whenever the spawn succeeds and the block under
    the [async with] ends, by returning or by raising (a cancellation raises
    [CancelledError]), [_terminate_process] runs exactly once on the process,
    after everything the block did, and its events close the trace that
    comes back with the outcome. When that teardown runs to its end, the
    caller gets the value or the failure of the block itself, and the
    process is finished: the child had exited or exited during the wait of
    the teardown, or SIGKILL was sent. *)
Theorem start_companion_command_releases {A} (h : Host) (self : Companion)
    (arguments : list str) (body : Co A) (companion_path : str) (c : Child)
    (tb : list event) (ob : outcome A) (pb : Process) :
  _companion_path self = Some companion_path ->
  create_subprocess_exec h (command_line self companion_path arguments) = Ok c ->
  body (launch c) = (tb, ob, pb) ->
  ob <> Blocked ->
  let logger := getChild (_logger self) (child_pid c) (join (u " ") arguments) in
  let teardown := _terminate_process h (_companion_teardown_timeout self) logger pb in
  let run := _start_companion_command h self arguments body in
  run.1 = Exec (command_line self companion_path arguments)
            :: Info logger Launched_process :: tb ++ teardown.1.1 /\
  teardown_calls logger teardown.1.1 = 1%nat /\
  teardown_calls logger run.1 = (teardown_calls logger tb + 1)%nat /\
  (signals SIGTERM teardown.1.1 <= 1)%nat /\
  (signals SIGKILL teardown.1.1 <= 1)%nat /\
  run.2 = finally_outcome ob teardown.1.2 /\
  run.2 <> Blocked /\
  (teardown_returns h (_companion_teardown_timeout self) pb = true ->
   run.2 = ob /\
   (is_Some (returncode teardown.2) \/ signals SIGKILL teardown.1.1 = 1%nat)).
Proof.
  intros Hpath Hexec Hbody Hob. cbv zeta.
  rewrite (start_companion_command_spawned h self arguments body
             companion_path c tb ob pb Hpath Hexec Hbody).
  set (logger := getChild (_logger self) (child_pid c) (join (u " ") arguments)).
  set (teardown := _terminate_process h (_companion_teardown_timeout self) logger pb).
  destruct (terminate_process_trace h (_companion_teardown_timeout self) logger pb)
    as (Hcalls & Hterm & Hkill & Hends).
  fold teardown in Hcalls, Hterm, Hkill, Hends.
  pose proof (terminate_process_terminal h (_companion_teardown_timeout self)
                logger pb) as Hterminal.
  pose proof (terminate_process_outcome h (_companion_teardown_timeout self)
                logger pb) as Houtcome.
  cbv zeta in Hterminal. fold teardown in Hterminal, Houtcome.
  assert (Hfinal : finally_outcome ob teardown.1.2 <> Blocked).
  { destruct (teardown.1.2); [assumption|discriminate|contradiction]. }
  assert (Hcount :
    teardown_calls logger
      (Exec (command_line self companion_path arguments)
         :: Info logger Launched_process :: tb ++ teardown.1.1)
    = (teardown_calls logger tb + 1)%nat).
  { unfold teardown_calls in *. cbn [count opens_teardown].
    rewrite count_app, Hcalls. lia. }
  assert (Hreleased :
    teardown_returns h (_companion_teardown_timeout self) pb = true ->
    finally_outcome ob teardown.1.2 = ob /\
    (is_Some (returncode teardown.2) \/ signals SIGKILL teardown.1.1 = 1%nat)).
  { intros Hreturns. split; [|exact (Hterminal Hreturns)].
    rewrite Houtcome, Hreturns. reflexivity. }
  destruct ob as [a|e|]; [| |contradiction]; cbn [fst snd];
    repeat split; try assumption; apply Hreleased; assumption.
Qed.

Lemma start_companion_command_releases_witness :
  (_start_companion_command (sample_host false (serving_child []))
     sample_companion [u "--boot"; u "A1"] (mret tt)).2 = Returned tt.
Proof.
  refine (proj1 (proj2 (proj2 (proj2 (proj2 (proj2 (proj2 (proj2
            (start_companion_command_releases
               (sample_host false (serving_child [])) sample_companion
               [u "--boot"; u "A1"] (mret tt)
               (u "/usr/local/bin/idb_companion") (serving_child [])
               [] (Returned tt) (launch (serving_child []))
               eq_refl eq_refl eq_refl _))))))) _)).
  - discriminate.
  - vm_compute. reflexivity.
Defined.

(** ** One-shot commands *)

Lemma wait_for_process_communicate timeout p :
  wait_for process_communicate timeout p =
  match exits_within timeout p with
  | Some rc =>
    ([], Returned (unread p, None),
     advance_to (match exit_of p with Some (t, _) => t | None => 0 end) p)
  | None => ([], Raised AsyncioTimeoutError, timed_out timeout p)
  end.
Proof.
  unfold wait_for, exits_within, timed_out, process_communicate.
  destruct (timeout <=? 0); [reflexivity|].
  destruct (exit_of p) as [[t rc]|]; [|reflexivity].
  destruct (t <=? clock p + timeout); reflexivity.
Qed.

Lemma returncode_once_waited timeout p rc :
  exits_within timeout p = Some rc ->
  returncode (advance_to (match exit_of p with Some (t, _) => t | None => 0 end) p)
  = Some rc.
Proof.
  unfold exits_within, returncode. cbn [exit_of advance_to child sigterm_at clock].
  change (exit_of (advance_to _ p)) with (exit_of p).
  destruct (timeout <=? 0); [discriminate|].
  fold (exit_of p).
  destruct (exit_of p) as [[t rc']|]; [|discriminate].
  destruct (t <=? clock p + timeout); [|discriminate].
  intros [= ->].
  destruct (Z.leb_spec t (Z.max (clock p) t)); [reflexivity|lia].
Qed.

(** The block of the executor, by what the wait on the child gives. *)
Lemma run_block_steps h self arguments timeout p :
  run_block h self arguments timeout p =
  match exits_within timeout p with
  | Some rc =>
    let p' := advance_to (match exit_of p with Some (t, _) => t | None => 0 end) p in
    if decide (rc = 0) then
      ([Info (_logger self) (Ran_successfully arguments)],
       match decode (unread p) with
       | Some text => Returned text
       | None => Raised UnicodeDecodeError
       end, p')
    else ([], Raised (IdbException (Failed_to_run arguments)), p')
  | None =>
    ([], Raised (IdbException (Timed_out_after timeout (join (u " ") arguments))),
     timed_out timeout p)
  end.
Proof.
  unfold run_block. co_unfold. rewrite wait_for_process_communicate.
  destruct (exits_within timeout p) as [rc|] eqn:Hw; [|reflexivity].
  cbn. rewrite (returncode_once_waited _ _ _ Hw).
  destruct (decide (rc = 0)) as [->|Hrc].
  - rewrite decide_True by reflexivity. destruct (decode (unread p)); reflexivity.
  - rewrite decide_False by congruence. reflexivity.
Qed.

Lemma run_companion_command_steps h self arguments timeout companion_path c :
  _companion_path self = Some companion_path ->
  create_subprocess_exec h (command_line self companion_path arguments) = Ok c ->
  let limit := or_default timeout (_companion_command_timeout self) in
  let logger := getChild (_logger self) (child_pid c) (join (u " ") arguments) in
  _run_companion_command h self arguments timeout =
  match exits_within limit (launch c) with
  | Some rc =>
    if decide (rc = 0) then
      ([Exec (command_line self companion_path arguments);
        Info logger Launched_process;
        Info (_logger self) (Ran_successfully arguments);
        Info logger (Process_has_exited_with rc)],
       match decode (child_stdout c) with
       | Some text => Returned text
       | None => Raised UnicodeDecodeError
       end)
    else
      ([Exec (command_line self companion_path arguments);
        Info logger Launched_process;
        Info logger (Process_has_exited_with rc)],
       Raised (IdbException (Failed_to_run arguments)))
  | None =>
    let teardown :=
      _terminate_process h (_companion_teardown_timeout self) logger
        (timed_out limit (launch c)) in
    (Exec (command_line self companion_path arguments)
       :: Info logger Launched_process :: teardown.1.1,
     finally_outcome
       (Raised (IdbException (Timed_out_after limit (join (u " ") arguments))))
       teardown.1.2)
  end.
Proof.
  intros Hpath Hexec. cbv zeta. unfold _run_companion_command.
  set (limit := or_default timeout (_companion_command_timeout self)).
  pose proof (run_block_steps h self arguments limit (launch c)) as Hblock.
  destruct (exits_within limit (launch c)) as [rc|] eqn:Hw.
  - pose proof (returncode_once_waited _ _ _ Hw) as Hrc.
    cbv zeta in Hblock. destruct (decide (rc = 0)) as [->|Hne].
    + rewrite (start_companion_command_spawned h self arguments _ companion_path c
                 _ _ _ Hpath Hexec Hblock).
      rewrite (terminate_process_exited _ _ _ _ 0 Hrc).
      cbn. destruct (decode (child_stdout c)); reflexivity.
    + rewrite (start_companion_command_spawned h self arguments _ companion_path c
                 _ _ _ Hpath Hexec Hblock).
      rewrite (terminate_process_exited _ _ _ _ rc Hrc). reflexivity.
  - rewrite (start_companion_command_spawned h self arguments _ companion_path c
               _ _ _ Hpath Hexec Hblock). reflexivity.
Qed.

(** A one-shot command never waits for ever once the child is spawned. *)
Lemma run_companion_command_ends h self arguments timeout companion_path c :
  _companion_path self = Some companion_path ->
  create_subprocess_exec h (command_line self companion_path arguments) = Ok c ->
  (_run_companion_command h self arguments timeout).2 <> Blocked.
Proof.
  intros Hpath Hexec.
  rewrite (run_companion_command_steps h self arguments timeout companion_path c
             Hpath Hexec).
  cbv zeta.
  destruct (exits_within _ (launch c)) as [rc|].
  - destruct (decide (rc = 0)); cbn; [destruct (decode _)|]; congruence.
  - cbn. rewrite terminate_process_outcome.
    destruct (teardown_returns _ _ _); cbn; congruence.
Qed.

(** C3, as amended. Once the child is spawned, the outcome of
    [_run_companion_command] follows the wait on the child under the command
    timeout. The child exits with code zero within the timeout: its captured
    standard output comes back decoded as UTF-8, and [UnicodeDecodeError] is
    raised when it does not decode. It exits with another code within the
    timeout: [IdbException] with the text "Failed to run" and the list of
    arguments. The wait exceeds the timeout and the teardown that follows
    runs to its end: [IdbException] with the text "Timed out after", the
    timeout and the joined arguments. *)
Theorem run_companion_command_outcomes (h : Host) (self : Companion)
    (arguments : list str) (timeout : option Z) (companion_path : str) (c : Child) :
  _companion_path self = Some companion_path ->
  create_subprocess_exec h (command_line self companion_path arguments) = Ok c ->
  let limit := or_default timeout (_companion_command_timeout self) in
  let run := _run_companion_command h self arguments timeout in
  match exits_within limit (launch c) with
  | Some rc =>
    if decide (rc = 0)
    then run.2 = match decode (child_stdout c) with
                 | Some text => Returned text
                 | None => Raised UnicodeDecodeError
                 end
    else run.2 = Raised (IdbException (Failed_to_run arguments))
  | None =>
    teardown_returns h (_companion_teardown_timeout self)
      (timed_out limit (launch c)) = true ->
    run.2 = Raised (IdbException (Timed_out_after limit (join (u " ") arguments)))
  end.
Proof.
  intros Hpath Hexec. cbv zeta.
  rewrite (run_companion_command_steps h self arguments timeout companion_path c
             Hpath Hexec).
  cbv zeta.
  destruct (exits_within _ (launch c)) as [rc|].
  - destruct (decide (rc = 0)); reflexivity.
  - intros Hreturns. cbn. rewrite terminate_process_outcome, Hreturns. reflexivity.
Qed.

Lemma run_companion_command_outcomes_witness :
  (_run_companion_command (sample_host false (finishing_child (b "booted") 0))
     sample_companion [u "--boot"; u "A1"] None).2 = Returned (u "booted") /\
  (_run_companion_command (sample_host false (finishing_child (b "booted") 3))
     sample_companion [u "--boot"; u "A1"] None).2
  = Raised (IdbException (Failed_to_run [u "--boot"; u "A1"])) /\
  (_run_companion_command (sample_host false (serving_child []))
     sample_companion [u "--boot"; u "A1"] (Some 5)).2
  = Raised (IdbException (Timed_out_after 5 (u "--boot A1"))).
Proof.
  split; [|split].
  - exact (run_companion_command_outcomes
             (sample_host false (finishing_child (b "booted") 0)) sample_companion
             [u "--boot"; u "A1"] None (u "/usr/local/bin/idb_companion")
             (finishing_child (b "booted") 0) eq_refl eq_refl).
  - exact (run_companion_command_outcomes
             (sample_host false (finishing_child (b "booted") 3)) sample_companion
             [u "--boot"; u "A1"] None (u "/usr/local/bin/idb_companion")
             (finishing_child (b "booted") 3) eq_refl eq_refl).
  - exact (run_companion_command_outcomes
             (sample_host false (serving_child [])) sample_companion
             [u "--boot"; u "A1"] (Some 5) (u "/usr/local/bin/idb_companion")
             (serving_child []) eq_refl eq_refl eq_refl).
Defined.

(** C3, the claim as stated fails: a child that exits with code zero within
    the timeout and whose output is the single byte 0xFF makes the call raise
    [UnicodeDecodeError]; the captured output does not come back. *)
Lemma run_companion_command_undecodable_output :
  exits_within 120 (launch (finishing_child [Byte.xff] 0)) = Some 0 /\
  (_run_companion_command (sample_host true (finishing_child [Byte.xff] 0))
     sample_companion [u "--list"; u "1"] None).2 = Raised UnicodeDecodeError.
Proof. split; reflexivity. Qed.

(** C4. With no companion path configured, the scoped acquisition raises
    [IdbException] at once, with the text "Companion path not provided" on
    macOS and "Companion interactions do not work on non-macOS platforms"
    elsewhere; nothing is spawned, the block under the [async with] does not
    run, and so for every one-shot command and every session. *)
Theorem no_companion_path_never_spawns {A} (h : Host) (self : Companion)
    (arguments : list str) (body : Co A) :
  _companion_path self = None ->
  let failure :=
    IdbException
      (if decide (platform h = u "darwin") then Companion_path_not_provided
       else Companion_interactions_do_not_work_on_non_macOS_platforms) in
  _start_companion_command h self arguments body = ([], Raised failure) /\
  count is_exec (_start_companion_command h self arguments body).1 = 0%nat /\
  (forall timeout,
     _run_companion_command h self arguments timeout = ([], Raised failure)) /\
  (forall device_type os_version timeout,
     create h self device_type os_version timeout = ([], Raised failure)) /\
  (forall only timeout, list_targets h self only timeout = ([], Raised failure)) /\
  (forall udid, boot_headless h self udid body = ([], Raised failure)) /\
  (forall udid path only (session : json_value -> Co A),
     unix_domain_server h self udid path only session = ([], Raised failure)).
Proof.
  intros Hpath. cbv zeta.
  assert (Hstart : forall B args (blk : Co B),
    _start_companion_command h self args blk =
    ([], Raised (IdbException
                   (if decide (platform h = u "darwin")
                    then Companion_path_not_provided
                    else Companion_interactions_do_not_work_on_non_macOS_platforms)))).
  { intros B args blk. unfold _start_companion_command. rewrite Hpath.
    destruct (decide (platform h = u "darwin")); reflexivity. }
  repeat split; intros;
    unfold create, list_targets, boot_headless, unix_domain_server, and_then,
      _run_companion_command;
    rewrite ?Hstart; reflexivity.
Qed.

Lemma no_companion_path_never_spawns_witness :
  _start_companion_command (sample_host true (finishing_child [] 0))
    unconfigured_companion [u "--list"; u "1"]
    (run_block (sample_host true (finishing_child [] 0)) unconfigured_companion
       [u "--list"; u "1"] 120)
  = ([], Raised (IdbException Companion_path_not_provided)).
Proof.
  exact (proj1 (no_companion_path_never_spawns
                  (sample_host true (finishing_child [] 0)) unconfigured_companion
                  [u "--list"; u "1"]
                  (run_block (sample_host true (finishing_child [] 0))
                     unconfigured_companion [u "--list"; u "1"] 120)
                  eq_refl)).
Defined.

(** ** The escalating teardown *)

(** C1, at the input where the code departs from the claim. On an
    interpreter where [asyncio.TimeoutError] is not the builtin
    [TimeoutError], a child that is running and ignores SIGTERM gets SIGTERM,
    the wait of thirty seconds times out, the [except TimeoutError] clause
    does not match, no SIGKILL is sent and [asyncio.TimeoutError] leaves
    [_terminate_process]. *)
Theorem terminate_process_lets_timeout_escape :
  returncode (launch (stubborn_child [])) = None /\
  exits_within 30 (terminated (launch (stubborn_child []))) = None /\
  (_terminate_process (sample_host false (stubborn_child [])) 30 sample_logger
     (launch (stubborn_child []))).1
  = ([Info sample_logger (Stopping_process_with_SIGTERM 30); Kill 4242 SIGTERM],
     Raised AsyncioTimeoutError) /\
  signals SIGKILL
    (_terminate_process (sample_host false (stubborn_child [])) 30 sample_logger
       (launch (stubborn_child []))).1.1 = 0%nat.
Proof. repeat split; reflexivity. Qed.

(** The escalation of the teardown where the handler matches: on an
    interpreter where [asyncio.TimeoutError] is the builtin [TimeoutError],
    a process that has exited gets no signal; a running one gets SIGTERM
    once, then no SIGKILL when it exits within the timeout and SIGKILL once
    when the wait times out; the teardown returns in every case. *)
Theorem terminate_process_escalation (h : Host) (timeout : Z) (logger : Logger)
    (p : Process) :
  timeout_is_builtin h = true ->
  let r := _terminate_process h timeout logger p in
  r.1.2 = Returned tt /\
  (forall rc, returncode p = Some rc ->
     r = ([Info logger (Process_has_exited_with rc)], Returned tt, p)) /\
  (returncode p = None ->
     signals SIGTERM r.1.1 = 1%nat /\
     (forall rc, exits_within timeout (terminated p) = Some rc ->
        signals SIGKILL r.1.1 = 0%nat) /\
     (exits_within timeout (terminated p) = None ->
        signals SIGKILL r.1.1 = 1%nat /\
        r.1.1 = [Info logger (Stopping_process_with_SIGTERM timeout);
                 Kill (child_pid (child p)) SIGTERM;
                 Info logger (Process_hasnt_exited_SIGKILLing timeout);
                 Kill (child_pid (child p)) SIGKILL])).
Proof.
  intros Hbuiltin. cbv zeta. split; [|split].
  - rewrite terminate_process_outcome. unfold teardown_returns.
    rewrite Hbuiltin, orb_true_r. reflexivity.
  - intros rc Hrc. apply terminate_process_exited, Hrc.
  - intros Hrc. rewrite (terminate_process_running _ _ _ _ Hrc), Hbuiltin.
    destruct (exits_within timeout (terminated p)) as [rc|];
      unfold signals; cbn; repeat case_bool_decide; try congruence;
      repeat split; try reflexivity; try congruence; intros; congruence.
Qed.

Lemma terminate_process_escalation_witness :
  (_terminate_process (sample_host true (stubborn_child [])) 30 sample_logger
     (launch (stubborn_child []))).1.2 = Returned tt.
Proof.
  exact (proj1 (terminate_process_escalation (sample_host true (stubborn_child []))
                  30 sample_logger (launch (stubborn_child [])) eq_refl)).
Defined.

(** What the teardown does on every interpreter: a process that has exited
    gets no signal and the teardown returns at once; a running one gets
    SIGTERM once; when it then exits within the timeout no SIGKILL follows
    and the teardown returns. *)
Theorem terminate_process_graceful (h : Host) (timeout : Z) (logger : Logger)
    (p : Process) :
  let r := _terminate_process h timeout logger p in
  (forall rc, returncode p = Some rc ->
     r = ([Info logger (Process_has_exited_with rc)], Returned tt, p) /\
     signals SIGTERM r.1.1 = 0%nat /\ signals SIGKILL r.1.1 = 0%nat) /\
  (forall rc, returncode p = None -> exits_within timeout (terminated p) = Some rc ->
     r.1 = ([Info logger (Stopping_process_with_SIGTERM timeout);
             Kill (child_pid (child p)) SIGTERM;
             Info logger (Process_has_exited_after_SIGTERM_with rc)], Returned tt) /\
     signals SIGTERM r.1.1 = 1%nat /\ signals SIGKILL r.1.1 = 0%nat).
Proof.
  cbv zeta. split.
  - intros rc Hrc. rewrite (terminate_process_exited _ _ _ _ rc Hrc).
    repeat split; reflexivity.
  - intros rc Hrc Hw. rewrite (terminate_process_running _ _ _ _ Hrc), Hw.
    repeat split; reflexivity.
Qed.

(** The defect of the teardown in general: on an interpreter where
    [asyncio.TimeoutError] is not the builtin [TimeoutError], whenever the
    wait on a running process times out, SIGTERM was sent, no SIGKILL is
    sent and [asyncio.TimeoutError] leaves the teardown. *)
Theorem terminate_process_timeout_uncaught (h : Host) (timeout : Z)
    (logger : Logger) (p : Process) :
  timeout_is_builtin h = false ->
  returncode p = None ->
  exits_within timeout (terminated p) = None ->
  (_terminate_process h timeout logger p).1
  = ([Info logger (Stopping_process_with_SIGTERM timeout);
      Kill (child_pid (child p)) SIGTERM], Raised AsyncioTimeoutError) /\
  signals SIGKILL (_terminate_process h timeout logger p).1.1 = 0%nat.
Proof.
  intros Hbuiltin Hrc Hw.
  rewrite (terminate_process_running _ _ _ _ Hrc), Hw, Hbuiltin.
  split; reflexivity.
Qed.

Lemma terminate_process_timeout_uncaught_witness :
  signals SIGKILL
    (_terminate_process (sample_host false (serving_child [])) 1 sample_logger
       (launch (serving_child []))).1.1 = 0%nat.
Proof.
  exact (proj2 (terminate_process_timeout_uncaught
                  (sample_host false (serving_child [])) 1 sample_logger
                  (launch (serving_child [])) eq_refl eq_refl eq_refl)).
Defined.

(** ** The fallback of the command timeout *)





(** ** The catalog *)

Lemma nonblank_cons line lines :
  filter (fun l : str => l <> []) (strip line :: (strip <$> lines)) =
  if (length (strip line) =? 0)%nat
  then filter (fun l : str => l <> []) (strip <$> lines)
  else strip line :: filter (fun l : str => l <> []) (strip <$> lines).
Proof.
  rewrite filter_cons.
  destruct (strip line); destruct (decide _) as [Hne|Hne]; cbn; try reflexivity;
    destruct Hne; [reflexivity|discriminate].
Qed.

(** The comprehension gives a list exactly when every line handed to the
    parser parses, and then the list holds their records in order. *)
Lemma parse_lines_ok h lines targets :
  parse_lines h lines = Ok targets <->
  Forall2 (fun line target => target_description_from_json h line = Ok target)
    (filter (fun l : str => l <> []) (strip <$> lines)) targets.
Proof.
  revert targets. induction lines as [|line lines IH]; intros targets.
  - cbn. split.
    + intros [= <-]. constructor.
    + intros Hall. inversion Hall. reflexivity.
  - cbn [parse_lines fmap list_fmap]. rewrite nonblank_cons.
    destruct (length (strip line) =? 0)%nat; [apply IH|].
    destruct (target_description_from_json h (strip line)) as [target|e] eqn:Hline.
    + destruct (parse_lines h lines) as [rest|e] eqn:Hrest.
      * split.
        -- intros [= <-]. constructor; [assumption|]. apply IH. reflexivity.
        -- intros Hall. inversion Hall as [|? t ? ts Hhd Htl]; subst.
           apply IH in Htl. congruence.
      * split; [discriminate|].
        intros Hall. inversion Hall as [|? t ? ts Hhd Htl]; subst.
        apply IH in Htl. discriminate.
    + split; [discriminate|].
      intros Hall. inversion Hall; subst. congruence.
Qed.

(** The comprehension raises exactly what the parser raises on one of the
    lines handed to it. *)
Lemma parse_lines_raise h lines e :
  parse_lines h lines = Raise e ->
  exists line, line ∈ filter (fun l : str => l <> []) (strip <$> lines) /\
               target_description_from_json h line = Raise e.
Proof.
  induction lines as [|line lines IH]; [discriminate|].
  cbn [parse_lines fmap list_fmap]. rewrite nonblank_cons.
  destruct (length (strip line) =? 0)%nat; [exact IH|].
  destruct (target_description_from_json h (strip line)) as [target|e'] eqn:Hline.
  - destruct (parse_lines h lines) as [rest|e'']; [discriminate|].
    intros [= <-]. destruct (IH eq_refl) as (l & Hin & Hl).
    exists l. split; [right; exact Hin|exact Hl].
  - intros [= <-]. exists (strip line). split; [left|exact Hline].
Qed.

Lemma parse_lines_malformed h lines line e :
  line ∈ filter (fun l : str => l <> []) (strip <$> lines) ->
  target_description_from_json h line = Raise e ->
  exists e', parse_lines h lines = Raise e'.
Proof.
  intros Hin Hline.
  destruct (parse_lines h lines) as [targets|e'] eqn:Hparse; [|eauto].
  apply parse_lines_ok in Hparse.
  destruct (proj1 (list_elem_of_lookup _ _) Hin) as [i Hi].
  destruct (Forall2_lookup_l _ _ _ _ _ Hparse Hi) as (target & _ & Hok).
  congruence.
Qed.

(** C5. On the output of the listing command, [list_targets] hands every
    line that is not blank, stripped, to the parser, one line at a time and
    in order; blank lines are passed over. It returns a list exactly when
    every such line parses, and the list holds one record per line; one
    malformed line makes the whole call raise, and what it raises is what
    the parser raised on one of the lines. *)
Theorem list_targets_all_or_nothing (h : Host) (self : Companion)
    (only : option OnlyFilter) (timeout : option Z) (t : list event) (output : str) :
  _run_companion_command h self ([u "--list"; u "1"] ++ _only_arg_from_filter only)
    timeout = (t, Returned output) ->
  let run := list_targets h self only timeout in
  run.1 = t /\
  (forall targets,
     run.2 = Returned targets <->
     Forall2 (fun line target => target_description_from_json h line = Ok target)
       (nonblank_lines output) targets) /\
  (forall line e,
     line ∈ nonblank_lines output ->
     target_description_from_json h line = Raise e ->
     exists e', run.2 = Raised e') /\
  (forall e,
     run.2 = Raised e ->
     exists line, line ∈ nonblank_lines output /\
                  target_description_from_json h line = Raise e) /\
  run.2 <> Blocked.
Proof.
  intros Hrun. cbv zeta. unfold list_targets, and_then, nonblank_lines.
  rewrite Hrun. cbn [fst snd].
  repeat split.
  - intros Hret. apply parse_lines_ok.
    destruct (parse_lines h (splitlines output)); cbn in Hret; congruence.
  - intros Hall. apply parse_lines_ok in Hall. rewrite Hall. reflexivity.
  - intros line e Hin Hline.
    destruct (parse_lines_malformed h _ line e Hin Hline) as [e' He'].
    exists e'. rewrite He'. reflexivity.
  - intros e Hraised. apply parse_lines_raise.
    destruct (parse_lines h (splitlines output)); cbn in Hraised; congruence.
  - destruct (parse_lines h (splitlines output)); cbn; congruence.
Qed.

Lemma list_targets_all_or_nothing_witness :
  (list_targets (sample_host false (finishing_child sample_listing 0))
     sample_companion None None).2
  = Returned [sample_target (u "A1"); sample_target (u "B2")] /\
  exists e, (list_targets (sample_host false (finishing_child sample_broken_listing 0))
               sample_companion None None).2 = Raised e.
Proof.
  split.
  - refine (proj2 (proj1 (proj2 (list_targets_all_or_nothing
              (sample_host false (finishing_child sample_listing 0))
              sample_companion None None
              (_run_companion_command
                 (sample_host false (finishing_child sample_listing 0))
                 sample_companion [u "--list"; u "1"] None).1
              (sample_json_line (u "A1") ++ [10%N] ++ u "   " ++ [10%N]
               ++ sample_json_line (u "B2") ++ [10%N]) _))
              [sample_target (u "A1"); sample_target (u "B2")]) _).
    + vm_compute. reflexivity.
    + vm_compute. constructor; [reflexivity|]. constructor; [reflexivity|]. constructor.
  - refine (proj1 (proj2 (proj2 (list_targets_all_or_nothing
              (sample_host false (finishing_child sample_broken_listing 0))
              sample_companion None None
              (_run_companion_command
                 (sample_host false (finishing_child sample_broken_listing 0))
                 sample_companion [u "--list"; u "1"] None).1
              (sample_json_line (u "A1") ++ [10%N] ++ u "{oops" ++ [10%N]
               ++ sample_json_line (u "B2") ++ [10%N]) _)))
              (u "{oops") (OtherError (u "JSONDecodeError")) _ _).
    + vm_compute. reflexivity.
    + vm_compute. right. left.
    + vm_compute. reflexivity.
Defined.

(** C7. On the list that [list_targets] gives, [target_description] keeps
    the entries whose udid is the one asked for, or all of them when none is
    asked for. No entry left: [IdbException] with the text "No device info
    found" and the whole list. More than one left: [IdbException] with the
    text "More than one device info found" and the entries left. Exactly
    one left: that entry is returned. *)
Theorem target_description_selects (h : Host) (self : Companion)
    (wanted : option str) (only : option OnlyFilter) (timeout : option Z)
    (t : list event) (all_details : list TargetDescription) :
  list_targets h self only timeout = (t, Returned all_details) ->
  let details :=
    match wanted with
    | Some x => filter (fun target => udid target = x) all_details
    | None => all_details
    end in
  let run := target_description h self wanted only timeout in
  run.1 = t /\
  (details = [] ->
   run.2 = Raised (IdbException (No_device_info_found all_details))) /\
  ((1 < length details)%nat ->
   run.2 = Raised (IdbException (More_than_one_device_info_found details))) /\
  (forall target, details = [target] -> run.2 = Returned target).
Proof.
  intros Hlist. cbv zeta. unfold target_description, and_then, select_target.
  rewrite Hlist. cbn [fst snd].
  set (details := match wanted with
                  | Some x => filter (fun target => udid target = x) all_details
                  | None => all_details
                  end).
  repeat split.
  - intros ->. reflexivity.
  - intros Hmany. destruct (Nat.ltb_spec 1 (length details)); [reflexivity|lia].
  - intros target ->. reflexivity.
Qed.

Lemma target_description_selects_witness :
  (target_description (sample_host false (finishing_child sample_listing 0))
     sample_companion (Some (u "B2")) None None).2
  = Returned (sample_target (u "B2")).
Proof.
  exact (proj2 (proj2 (proj2 (target_description_selects
           (sample_host false (finishing_child sample_listing 0))
           sample_companion (Some (u "B2")) None None _ _ eq_refl)))
           (sample_target (u "B2")) eq_refl).
Defined.

(** ** The last line of the output *)

Lemma splitlines_one_line line :
  Forall (fun c => is_linebreak c = false) line ->
  splitlines (line ++ [10%N]) = [line].
Proof.
  induction 1 as [|c line Hc _ IH]; [reflexivity|].
  cbn [app splitlines]. rewrite Hc, IH. reflexivity.
Qed.

Lemma splitlines_break c r :
  is_linebreak c = true ->
  splitlines (c :: r) =
  [] :: match r with
        | c' :: r' => if ((c =? 13) && (c' =? 10))%N then splitlines r'
                      else splitlines r
        | [] => []
        end.
Proof. intros Hc. cbn [splitlines]. rewrite Hc. destruct r; reflexivity. Qed.

(** Whatever comes before, a line closed by a line feed and preceded by one
    is the last line that [splitlines] gives. *)
Lemma splitlines_last_line line :
  Forall (fun c => is_linebreak c = false) line ->
  forall n progress, length progress = n ->
  exists first rest,
    splitlines (progress ++ 10%N :: line ++ [10%N]) = first :: rest ++ [line].
Proof.
  intros Hline n. induction n as [n IH] using lt_wf_ind.
  intros progress Hlen. destruct progress as [|c r].
  - exists [], []. cbn [app]. rewrite splitlines_break by reflexivity.
    destruct line as [|c' r'].
    + reflexivity.
    + cbn [app]. change (c' :: r' ++ [10%N]) with ((c' :: r') ++ [10%N]).
      rewrite (splitlines_one_line _ Hline). reflexivity.
  - cbn [length] in Hlen. destruct (is_linebreak c) eqn:Hc.
    + cbn [app]. rewrite (splitlines_break _ _ Hc).
      destruct r as [|c' r'].
      * cbn [app]. destruct ((c =? 13) && (10 =? 10))%N.
        -- exists [], []. rewrite (splitlines_one_line _ Hline). reflexivity.
        -- destruct (IH 0%nat ltac:(lia) [] eq_refl) as (first & rest & Heq).
           cbn [app] in Heq. rewrite Heq. exists [], (first :: rest). reflexivity.
      * cbn [app length] in *. destruct ((c =? 13) && (c' =? 10))%N.
        -- destruct (IH (length r') ltac:(lia) r' eq_refl) as (first & rest & Heq).
           rewrite Heq. exists [], (first :: rest). reflexivity.
        -- destruct (IH (S (length r')) ltac:(lia) (c' :: r') eq_refl)
             as (first & rest & Heq).
           cbn [app] in Heq. rewrite Heq. exists [], (first :: rest). reflexivity.
    + cbn [app splitlines]. rewrite Hc.
      destruct (IH (length r) ltac:(lia) r eq_refl) as (first & rest & Heq).
      rewrite Heq. exists (c :: first), rest. reflexivity.
Qed.

Lemma parse_last_line_after_progress h progress line :
  Forall (fun c => is_linebreak c = false) line ->
  parse_last_line h (progress ++ 10%N :: line ++ [10%N])
  = target_description_from_json h line.
Proof.
  intros Hline. unfold parse_last_line, last_item.
  destruct (splitlines_last_line line Hline _ progress eq_refl)
    as (first & rest & ->).
  change (first :: rest ++ [line]) with ((first :: rest) ++ [line]).
  rewrite last_snoc. reflexivity.
Qed.

(** C6, as amended. [create] and [clone] hand to the parser the last
    element of [output.splitlines()], empty or not, and raise [IndexError]
    on an empty output. When the output is any progress text, a line feed,
    one line and a final line feed, that line alone is parsed, so for
    "progress: 50%\n{json}\n" the record comes from the JSON line. *)
Theorem create_parses_last_line (h : Host) (self : Companion)
    (device_type os_version : str) (timeout : option Z) (t : list event)
    (output : str) :
  _run_companion_command h self [u "--create"; device_type ++ u "," ++ os_version]
    timeout = (t, Returned output) ->
  create h self device_type os_version timeout
  = (t, settle match last (splitlines output) with
               | Some line => target_description_from_json h line
               | None => Raise IndexError
               end) /\
  (forall progress line,
     Forall (fun c => is_linebreak c = false) line ->
     output = progress ++ 10%N :: line ++ [10%N] ->
     create h self device_type os_version timeout
     = (t, settle (target_description_from_json h line))) /\
  (output = [] ->
   create h self device_type os_version timeout = (t, Raised IndexError)) /\
  (forall udid destination t' output',
     _run_companion_command h self
       ([u "--clone"; udid]
        ++ match destination with
           | Some d => [u "--clone-destination-set"; d]
           | None => []
           end) timeout = (t', Returned output') ->
     clone h self udid destination timeout
     = (t', settle match last (splitlines output') with
                   | Some line => target_description_from_json h line
                   | None => Raise IndexError
                   end)).
Proof.
  intros Hrun. unfold create, clone, and_then. rewrite Hrun. cbn [fst snd].
  repeat split.
  - intros progress line Hline ->.
    rewrite (parse_last_line_after_progress h progress line Hline). reflexivity.
  - intros ->. reflexivity.
  - intros udid destination t' output' Hclone. rewrite Hclone. reflexivity.
Qed.

Lemma create_parses_last_line_witness :
  create (sample_host false (finishing_child sample_creation 0)) sample_companion
    (u "iPhone 11") (u "13.0") None
  = ((_run_companion_command (sample_host false (finishing_child sample_creation 0))
        sample_companion [u "--create"; u "iPhone 11,13.0"] None).1,
     Returned (sample_target (u "ABC"))).
Proof.
  exact (proj1 (proj2 (create_parses_last_line
           (sample_host false (finishing_child sample_creation 0)) sample_companion
           (u "iPhone 11") (u "13.0") None _ _ eq_refl))
           (u "progress: 50%") (sample_json_line (u "ABC"))
           ltac:(repeat constructor) eq_refl).
Defined.

(** C6, the claim as stated fails: when the output is the record of the
    target and then an empty line, the last line that is not empty is the
    record and it parses, yet [create] hands the empty last line to the
    parser and raises. *)
Lemma create_last_line_is_empty :
  decode sample_creation_blank_end = Some (sample_json_line (u "ABC") ++ [10%N; 10%N]) /\
  spec_last_nonempty_line (sample_json_line (u "ABC") ++ [10%N; 10%N])
  = Some (sample_json_line (u "ABC")) /\
  sample_target_description_from_json (sample_json_line (u "ABC"))
  = Ok (sample_target (u "ABC")) /\
  last (splitlines (sample_json_line (u "ABC") ++ [10%N; 10%N])) = Some [] /\
  (create (sample_host false (finishing_child sample_creation_blank_end 0))
     sample_companion (u "iPhone 11") (u "13.0") None).2
  = Raised (OtherError (u "JSONDecodeError")).
Proof. repeat split; reflexivity. Qed.

(** ** The domain-socket handshake *)

(** [parse_json_line] by what the decoding and the JSON reader give. *)
Lemma parse_json_line_steps h line :
  parse_json_line h line =
  match decode line with
  | None => Raise UnicodeDecodeError
  | Some text =>
    match json_loads h text with
    | Some parsed => Ok parsed
    | None => Raise (IdbJsonException (Failed_to_parse_json_from text))
    end
  end.
Proof. reflexivity. Qed.

(** The block of the session once the first line is read. *)
Lemma handshake_block_steps {A} h self (body : json_value -> Co A) p line p1 :
  readline p = ([], Returned line, p1) ->
  handshake_block h self body p =
  match parse_json_line h line with
  | Raise e => ([], Raised e, p1)
  | Ok output =>
    match output !! u "grpc_path" with
    | None => ([], Raised (IdbException (No_grpc_path_in line)), p1)
    | Some grpc_path =>
      let r := body grpc_path p1 in
      (Info (_logger self) (Started_domain_sock_server_on grpc_path) :: r.1.1,
       r.1.2, r.2)
    end
  end.
Proof.
  intros Hread. unfold handshake_block. co_unfold. rewrite Hread.
  destruct (parse_json_line h line) as [output|e]; [|reflexivity].
  cbn. destruct (output !! u "grpc_path") as [grpc_path|]; [|reflexivity].
  destruct (body grpc_path p1) as [[tb ob] pb]. reflexivity.
Qed.

(** C8, at the input where the code departs from the claim. On an
    interpreter where [asyncio.TimeoutError] is not the builtin
    [TimeoutError], with a server whose handshake line is the object [{}]
    and that ignores SIGTERM: the line parses, the block raises
    [IdbException] "No grpc_path in", the teardown sends SIGTERM, its wait
    times out, no SIGKILL is sent and the caller gets [asyncio.TimeoutError]
    in place of the failure of the handshake. *)
Theorem unix_domain_server_failure_replaced :
  parse_json_line (sample_host false (stubborn_child sample_empty_handshake))
    sample_empty_handshake = Ok ∅ /\
  (handshake_block (sample_host false (stubborn_child sample_empty_handshake))
     sample_companion (fun _ => mret tt)
     (launch (stubborn_child sample_empty_handshake))).1.2
  = Raised (IdbException (No_grpc_path_in sample_empty_handshake)) /\
  (unix_domain_server (sample_host false (stubborn_child sample_empty_handshake))
     sample_companion (u "A1") (u "/tmp/sock") None (fun _ => mret tt)).2
  = Raised AsyncioTimeoutError /\
  signals SIGTERM
    (unix_domain_server (sample_host false (stubborn_child sample_empty_handshake))
       sample_companion (u "A1") (u "/tmp/sock") None (fun _ => mret tt)).1 = 1%nat /\
  signals SIGKILL
    (unix_domain_server (sample_host false (stubborn_child sample_empty_handshake))
       sample_companion (u "A1") (u "/tmp/sock") None (fun _ => mret tt)).1 = 0%nat.
Proof. repeat split; vm_compute; reflexivity. Qed.

(** The handshake where the teardown runs to its end. Once the child is
    spawned and its first line is read: a line that does not parse fails the
    session with what [parse_json_line] raised; an object without
    [grpc_path] fails it with [IdbException] "No grpc_path in", which is not
    an [IdbJsonException]; an object with [grpc_path] logs the path and runs
    the block of the caller on it. In every case the teardown runs once,
    after the block. *)
Theorem unix_domain_server_handshake {A} (h : Host) (self : Companion)
    (udid path : str) (only : option OnlyFilter) (body : json_value -> Co A)
    (companion_path : str) (c : Child) (line : bytes) (p1 : Process) :
  let arguments :=
    [u "--udid"; udid; u "--grpc-domain-sock"; path] ++ _only_arg_from_filter only in
  let logger := getChild (_logger self) (child_pid c) (join (u " ") arguments) in
  _companion_path self = Some companion_path ->
  create_subprocess_exec h (command_line self companion_path arguments) = Ok c ->
  readline (launch c) = ([], Returned line, p1) ->
  let run := unix_domain_server h self udid path only body in
  (forall e, parse_json_line h line = Raise e ->
     teardown_returns h (_companion_teardown_timeout self) p1 = true ->
     run.2 = Raised e /\ teardown_calls logger run.1 = 1%nat) /\
  (forall output, parse_json_line h line = Ok output ->
     output !! u "grpc_path" = None ->
     teardown_returns h (_companion_teardown_timeout self) p1 = true ->
     run.2 = Raised (IdbException (No_grpc_path_in line)) /\
     (forall m, run.2 <> Raised (IdbJsonException m)) /\
     teardown_calls logger run.1 = 1%nat) /\
  (forall output grpc_path, parse_json_line h line = Ok output ->
     output !! u "grpc_path" = Some grpc_path ->
     (body grpc_path p1).1.2 <> Blocked ->
     let teardown :=
       _terminate_process h (_companion_teardown_timeout self) logger
         (body grpc_path p1).2 in
     run.1 = Exec (command_line self companion_path arguments)
               :: Info logger Launched_process
               :: Info (_logger self) (Started_domain_sock_server_on grpc_path)
               :: (body grpc_path p1).1.1 ++ teardown.1.1 /\
     run.2 = finally_outcome (body grpc_path p1).1.2 teardown.1.2).
Proof.
  intros arguments logger Hpath Hexec Hread. cbv zeta.
  pose proof (handshake_block_steps h self body (launch c) line p1 Hread) as Hblock.
  unfold unix_domain_server. fold arguments.
  pose proof (proj1 (terminate_process_trace h (_companion_teardown_timeout self)
                       logger p1)) as Hcalls.
  cbv zeta in Hcalls.
  split; [|split].
  - intros e Hparse Hreturns. rewrite Hparse in Hblock.
    rewrite (start_companion_command_spawned h self arguments _ companion_path c
               _ _ _ Hpath Hexec Hblock).
    fold logger. cbn [fst snd app]. split.
    + rewrite terminate_process_outcome, Hreturns. reflexivity.
    + unfold teardown_calls in *. cbn [count opens_teardown]. exact Hcalls.
  - intros output Hparse Hfield Hreturns. rewrite Hparse, Hfield in Hblock.
    rewrite (start_companion_command_spawned h self arguments _ companion_path c
               _ _ _ Hpath Hexec Hblock).
    fold logger. cbn [fst snd app].
    rewrite terminate_process_outcome, Hreturns. cbn [finally_outcome].
    split; [reflexivity|]. split; [congruence|].
    unfold teardown_calls in *. cbn [count opens_teardown]. exact Hcalls.
  - intros output grpc_path Hparse Hfield Hends.
    rewrite Hparse, Hfield in Hblock. cbv zeta in Hblock.
    rewrite (start_companion_command_spawned h self arguments _ companion_path c
               _ _ _ Hpath Hexec Hblock).
    fold logger.
    destruct ((body grpc_path p1).1.2); [| |contradiction]; split; reflexivity.
Qed.

Lemma unix_domain_server_handshake_witness :
  (unix_domain_server (sample_host false (serving_child sample_handshake))
     sample_companion (u "A1") (u "/tmp/sock") None (fun grpc_path => mret grpc_path)).2
  = Returned (JStr (u "/tmp/sock")) /\
  (unix_domain_server (sample_host false (serving_child sample_empty_handshake))
     sample_companion (u "A1") (u "/tmp/sock") None (fun grpc_path => mret grpc_path)).2
  = Raised (IdbException (No_grpc_path_in sample_empty_handshake)).
Proof.
  split.
  - refine (proj2 (proj2 (proj2 (unix_domain_server_handshake
              (sample_host false (serving_child sample_handshake))
              sample_companion (u "A1") (u "/tmp/sock") None
              (fun grpc_path => mret grpc_path)
              (u "/usr/local/bin/idb_companion") (serving_child sample_handshake)
              sample_handshake (readline (launch (serving_child sample_handshake))).2
              eq_refl eq_refl _))
              {[ u "grpc_path" := JStr (u "/tmp/sock") ]} (JStr (u "/tmp/sock"))
              _ _ _)).
    + vm_compute. reflexivity.
    + vm_compute. reflexivity.
    + vm_compute. reflexivity.
    + vm_compute. discriminate.
  - refine (proj1 (proj1 (proj2 (unix_domain_server_handshake
              (sample_host false (serving_child sample_empty_handshake))
              sample_companion (u "A1") (u "/tmp/sock") None
              (fun grpc_path => mret grpc_path)
              (u "/usr/local/bin/idb_companion") (serving_child sample_empty_handshake)
              sample_empty_handshake
              (readline (launch (serving_child sample_empty_handshake))).2
              eq_refl eq_refl _))
              ∅ _ _ _)).
    + vm_compute. reflexivity.
    + vm_compute. reflexivity.
    + vm_compute. reflexivity.
    + vm_compute. reflexivity.
Defined.

(** ** Reading one JSON line *)

(** C9, as amended. [parse_json_line] decodes the line as UTF-8 and reads
    the text as JSON. A line that does not decode raises
    [UnicodeDecodeError], which the function does not catch; a text that is
    not JSON raises [IdbJsonException] with the decoded text; nothing else
    is raised, and a dictionary comes back only as the JSON reader gave it
    for the decoded line, never a default. *)
Theorem parse_json_line_failures (h : Host) (line : bytes) :
  (decode line = None -> parse_json_line h line = Raise UnicodeDecodeError) /\
  (forall text, decode line = Some text -> json_loads h text = None ->
     parse_json_line h line
     = Raise (IdbJsonException (Failed_to_parse_json_from text))) /\
  (forall parsed, parse_json_line h line = Ok parsed <->
     exists text, decode line = Some text /\ json_loads h text = Some parsed) /\
  (forall e, parse_json_line h line = Raise e ->
     (e = UnicodeDecodeError /\ decode line = None) \/
     (exists text, decode line = Some text /\ json_loads h text = None /\
                   e = IdbJsonException (Failed_to_parse_json_from text))).
Proof.
  rewrite parse_json_line_steps. repeat split.
  - intros ->. reflexivity.
  - intros text -> ->. reflexivity.
  - destruct (decode line) as [text|]; [|discriminate].
    destruct (json_loads h text) as [d|] eqn:Hd; [|discriminate].
    intros [= <-]. eauto.
  - intros (text & -> & ->). reflexivity.
  - intros e. destruct (decode line) as [text|].
    + destruct (json_loads h text) eqn:Hd; [discriminate|].
      intros [= <-]. right. eauto.
    + intros [= <-]. left. split; reflexivity.
Qed.

Lemma parse_json_line_failures_witness :
  parse_json_line (sample_host false (finishing_child [] 0)) (b "{oops")
  = Raise (IdbJsonException (Failed_to_parse_json_from (u "{oops"))).
Proof.
  exact (proj1 (proj2 (parse_json_line_failures
                         (sample_host false (finishing_child [] 0)) (b "{oops")))
           (u "{oops") eq_refl eq_refl).
Defined.

(** C9, the claim as stated fails: on the single byte 0xFF, which is not
    UTF-8, [parse_json_line] raises [UnicodeDecodeError], not the
    [IdbJsonException] of a line that cannot be read. *)
Lemma parse_json_line_undecodable :
  decode [Byte.xff] = None /\
  parse_json_line (sample_host false (finishing_child [] 0)) [Byte.xff]
  = Raise UnicodeDecodeError.
Proof. split; reflexivity. Qed.

(** ** The filter argument *)

(** The two tokens of [_only_arg_from_filter]: nothing for no filter,
    otherwise [--only] and one token, and the token tells the filter:
    distinct filters give distinct argument lists. *)
Theorem only_arg_from_filter_faithful (only1 only2 : option OnlyFilter) :
  (_only_arg_from_filter only1 = [] <-> only1 = None) /\
  (only1 <> None ->
   exists token, _only_arg_from_filter only1 = [u "--only"; token] /\ token <> []) /\
  (_only_arg_from_filter only1 = _only_arg_from_filter only2 -> only1 = only2).
Proof.
  split; [|split].
  - destruct only1 as [[t|f]|]; cbn; split; intros Heq; try reflexivity; discriminate.
  - intros Hsome. destruct only1 as [[[|]|f]|]; [| | |contradiction].
    + exists (u "simulator"). split; [reflexivity|discriminate].
    + exists (u "device"). split; [reflexivity|discriminate].
    + exists (u "ecid:" ++ ecid f). split; [reflexivity|discriminate].
  - destruct only1 as [[[|]|[e1]]|], only2 as [[[|]|[e2]]|];
      intros Heq; try reflexivity; vm_compute in Heq; try discriminate.
    injection Heq as ->. reflexivity.
Qed.

(** ** Signals of a one-shot command *)

Lemma terminate_process_signals h timeout logger p :
  let r := _terminate_process h timeout logger p in
  count is_exec r.1.1 = 0%nat /\
  (signals SIGKILL r.1.1 <= signals SIGTERM r.1.1)%nat /\
  (signals SIGTERM r.1.1 <= 1)%nat /\
  (forall rc, returncode p = Some rc ->
     signals SIGTERM r.1.1 = 0%nat /\ signals SIGKILL r.1.1 = 0%nat).
Proof.
  cbv zeta. destruct (returncode p) as [rc|] eqn:Hrc.
  - rewrite (terminate_process_exited _ _ _ _ rc Hrc).
    repeat split; cbn; lia.
  - rewrite (terminate_process_running _ _ _ _ Hrc).
    destruct (exits_within timeout (terminated p)) as [rc|];
      [|destruct (timeout_is_builtin h)];
      unfold signals; cbn; repeat case_bool_decide;
      repeat split; intros; try congruence; lia.
Qed.

(** A one-shot command spawns the companion exactly once, with the command
    line [<executable> [--device-set-path <path>] <arguments>], before it
    does anything else. It sends SIGTERM at most once and SIGKILL only after
    a SIGTERM, and when the child exits by itself within the timeout it
    sends no signal at all. *)
Theorem run_companion_command_signals (h : Host) (self : Companion)
    (arguments : list str) (timeout : option Z) (companion_path : str) (c : Child) :
  _companion_path self = Some companion_path ->
  create_subprocess_exec h (command_line self companion_path arguments) = Ok c ->
  let limit := or_default timeout (_companion_command_timeout self) in
  let run := _run_companion_command h self arguments timeout in
  head run.1 = Some (Exec (command_line self companion_path arguments)) /\
  count is_exec run.1 = 1%nat /\
  (signals SIGTERM run.1 <= 1)%nat /\
  (signals SIGKILL run.1 <= signals SIGTERM run.1)%nat /\
  (forall rc, exits_within limit (launch c) = Some rc ->
     signals SIGTERM run.1 = 0%nat /\ signals SIGKILL run.1 = 0%nat).
Proof.
  intros Hpath Hexec. cbv zeta.
  rewrite (run_companion_command_steps h self arguments timeout companion_path c
             Hpath Hexec).
  cbv zeta.
  destruct (exits_within _ (launch c)) as [rc|] eqn:Hw.
  - destruct (decide (rc = 0)); repeat split; cbn; lia.
  - destruct (terminate_process_signals h (_companion_teardown_timeout self)
                (getChild (_logger self) (child_pid c) (join (u " ") arguments))
                (timed_out (or_default timeout (_companion_command_timeout self))
                   (launch c)))
      as (Hexecs & Hkill & Hterm & _).
    cbv zeta in Hexecs, Hkill, Hterm.
    unfold signals in *. cbn [fst snd head count is_exec sends].
    repeat split; intros; try lia; congruence.
Qed.

Lemma run_companion_command_signals_witness :
  signals SIGTERM
    (_run_companion_command (sample_host false (finishing_child (b "ok") 0))
       sample_companion [u "--boot"; u "A1"] None).1 = 0%nat.
Proof.
  exact (proj1 (proj2 (proj2 (proj2 (proj2 (run_companion_command_signals
           (sample_host false (finishing_child (b "ok") 0)) sample_companion
           [u "--boot"; u "A1"] None (u "/usr/local/bin/idb_companion")
           (finishing_child (b "ok") 0) eq_refl eq_refl)))) 0 eq_refl)).
Defined.

(** ** Commands on one target *)

(** [boot], [shutdown], [erase] and [delete] throw the output of the
    companion away, yet they return only when the child exits with code zero
    within the timeout and its output decodes as UTF-8; [delete] without a
    udid runs [--delete all]. *)
Theorem udid_commands_return (h : Host) (self : Companion) (udid : str)
    (timeout : option Z) (companion_path : str) (c : Child) :
  _companion_path self = Some companion_path ->
  (forall cmd, create_subprocess_exec h cmd = Ok c) ->
  let limit := or_default timeout (_companion_command_timeout self) in
  let succeeds :=
    exits_within limit (launch c) = Some 0 /\ is_Some (decode (child_stdout c)) in
  ((boot h self udid timeout).2 = Returned tt <-> succeeds) /\
  ((shutdown h self udid timeout).2 = Returned tt <-> succeeds) /\
  ((erase h self udid timeout).2 = Returned tt <-> succeeds) /\
  ((delete h self (Some udid) timeout).2 = Returned tt <-> succeeds) /\
  ((delete h self None timeout).2 = Returned tt <-> succeeds) /\
  head (delete h self None timeout).1
  = Some (Exec (command_line self companion_path [u "--delete"; u "all"])) /\
  head (boot h self udid timeout).1
  = Some (Exec (command_line self companion_path [u "--boot"; udid])).
Proof.
  intros Hpath Hexec. cbv zeta.
  assert (Hgen : forall arguments,
    ((and_then (_run_companion_command h self arguments timeout)
        (fun _ => Ok tt)).2 = Returned tt <->
     exits_within (or_default timeout (_companion_command_timeout self)) (launch c)
     = Some 0 /\ is_Some (decode (child_stdout c))) /\
    head (_run_companion_command h self arguments timeout).1
    = Some (Exec (command_line self companion_path arguments))).
  { intros arguments. unfold and_then.
    rewrite (run_companion_command_steps h self arguments timeout companion_path c
               Hpath (Hexec _)).
    cbv zeta.
    destruct (exits_within _ (launch c)) as [rc|].
    - destruct (decide (rc = 0)) as [->|Hrc]; cbn [fst snd head].
      + destruct (decode (child_stdout c)) as [text|]; cbn [settle].
        * split; [|reflexivity]. split; [eauto|reflexivity].
        * split; [|reflexivity]. split; [discriminate|].
          intros [_ [? ?]]; discriminate.
      + split; [|reflexivity]. split; [discriminate|].
        intros [[= ->] _]. contradiction.
    - cbn [fst snd head]. split; [|reflexivity]. split; [|intros [? _]; discriminate].
      destruct ((_terminate_process _ _ _ _).1.2); discriminate. }
  unfold boot, shutdown, erase, delete, _run_udid_command.
  split; [exact (proj1 (Hgen _))|].
  split; [exact (proj1 (Hgen _))|].
  split; [exact (proj1 (Hgen _))|].
  split; [exact (proj1 (Hgen _))|].
  split; [exact (proj1 (Hgen _))|].
  split; [exact (proj2 (Hgen _))|exact (proj2 (Hgen _))].
Qed.

Lemma udid_commands_return_witness :
  (delete (sample_host false (finishing_child (b "done") 0)) sample_companion
     None None).2 = Returned tt.
Proof.
  refine (proj2 (proj1 (proj2 (proj2 (proj2 (proj2 (udid_commands_return
            (sample_host false (finishing_child (b "done") 0)) sample_companion
            (u "A1") None (u "/usr/local/bin/idb_companion")
            (finishing_child (b "done") 0) eq_refl (fun _ => eq_refl))))))) _).
  split; [reflexivity|]. vm_compute. eauto.
Defined.

(** ** Sessions *)

(** The block of [boot_headless] once the first line is read. *)
Lemma boot_headless_spawned {A} h self udid (body : Co A) companion_path c raw p1 :
  let arguments := [u "--headless"; u "1"; u "--boot"; udid] in
  let logger := getChild (_logger self) (child_pid c) (join (u " ") arguments) in
  let teardown p := _terminate_process h (_companion_teardown_timeout self) logger p in
  _companion_path self = Some companion_path ->
  create_subprocess_exec h (command_line self companion_path arguments) = Ok c ->
  readline (launch c) = ([], Returned raw, p1) ->
  boot_headless h self udid body =
  match decode raw with
  | None =>
    (Exec (command_line self companion_path arguments)
       :: Info logger Launched_process :: (teardown p1).1.1,
     finally_outcome (Raised UnicodeDecodeError) (teardown p1).1.2)
  | Some line =>
    match target_description_from_json h line with
    | Raise e =>
      (Exec (command_line self companion_path arguments)
         :: Info logger Launched_process :: (teardown p1).1.1,
       finally_outcome (Raised e) (teardown p1).1.2)
    | Ok target =>
      match (body p1).1.2 with
      | Returned a =>
        (Exec (command_line self companion_path arguments)
           :: Info logger Launched_process
           :: Info (_logger self) (Is_now_booted target)
           :: (body p1).1.1
           ++ Info (_logger self) (Done_with_shutting_down target)
           :: (teardown (body p1).2).1.1,
         finally_outcome (Returned a) (teardown (body p1).2).1.2)
      | Raised e =>
        (Exec (command_line self companion_path arguments)
           :: Info logger Launched_process
           :: Info (_logger self) (Is_now_booted target)
           :: (body p1).1.1 ++ (teardown (body p1).2).1.1,
         finally_outcome (Raised e) (teardown (body p1).2).1.2)
      | Blocked =>
        (Exec (command_line self companion_path arguments)
           :: Info logger Launched_process
           :: Info (_logger self) (Is_now_booted target) :: (body p1).1.1,
         Blocked)
      end
    end
  end.
Proof.
  intros arguments logger teardown Hpath Hexec Hread.
  unfold boot_headless. fold arguments.
  unfold _start_companion_command. rewrite Hpath, Hexec. fold logger.
  unfold try_finally. co_unfold. rewrite Hread.
  destruct (decode raw) as [line|].
  - destruct (target_description_from_json h line) as [target|e]; cbn [settle].
    + destruct (body p1) as [[tb ob] pb]. cbn [fst snd].
      destruct ob as [a|e|].
      * unfold teardown.
        destruct (_terminate_process h (_companion_teardown_timeout self) logger pb)
          as [[tt ot] pt].
        cbn. rewrite <- !app_assoc. reflexivity.
      * unfold teardown.
        destruct (_terminate_process h (_companion_teardown_timeout self) logger pb)
          as [[tt ot] pt].
        cbn. rewrite ?app_nil_r. reflexivity.
      * cbn. rewrite ?app_nil_r. reflexivity.
    + unfold teardown.
      destruct (_terminate_process h (_companion_teardown_timeout self) logger p1)
        as [[tt ot] pt].
      reflexivity.
  - unfold teardown.
    destruct (_terminate_process h (_companion_teardown_timeout self) logger p1)
      as [[tt ot] pt].
    reflexivity.
Qed.

(** [boot_headless] lets the block of the caller run only once the first
    line of the companion decodes and parses as a target. After a first line
    that does not decode or does not parse, neither the block nor the two
    log lines of the session happen and the teardown runs once; when that
    teardown runs to its end, the session ends with the failure of the
    decoding or of the parser. When the block returns, "Done with" is logged
    before the teardown; when it raises, it is not logged. *)
Theorem boot_headless_handshake {A} (h : Host) (self : Companion) (udid : str)
    (body : Co A) (companion_path : str) (c : Child) (raw : bytes) (p1 : Process) :
  let arguments := [u "--headless"; u "1"; u "--boot"; udid] in
  let logger := getChild (_logger self) (child_pid c) (join (u " ") arguments) in
  let teardown p := _terminate_process h (_companion_teardown_timeout self) logger p in
  _companion_path self = Some companion_path ->
  create_subprocess_exec h (command_line self companion_path arguments) = Ok c ->
  readline (launch c) = ([], Returned raw, p1) ->
  let run := boot_headless h self udid body in
  (forall failure,
     (decode raw = None /\ failure = UnicodeDecodeError) \/
     (exists line, decode raw = Some line /\
                   target_description_from_json h line = Raise failure) ->
     run.1 = Exec (command_line self companion_path arguments)
               :: Info logger Launched_process :: (teardown p1).1.1 /\
     teardown_calls logger run.1 = 1%nat /\
     (teardown_returns h (_companion_teardown_timeout self) p1 = true ->
      run.2 = Raised failure)) /\
  (forall line target,
     decode raw = Some line -> target_description_from_json h line = Ok target ->
     (forall a, (body p1).1.2 = Returned a ->
        run.1 = Exec (command_line self companion_path arguments)
                  :: Info logger Launched_process
                  :: Info (_logger self) (Is_now_booted target)
                  :: (body p1).1.1
                  ++ Info (_logger self) (Done_with_shutting_down target)
                  :: (teardown (body p1).2).1.1 /\
        run.2 = finally_outcome (Returned a) (teardown (body p1).2).1.2) /\
     (forall e, (body p1).1.2 = Raised e ->
        run.1 = Exec (command_line self companion_path arguments)
                  :: Info logger Launched_process
                  :: Info (_logger self) (Is_now_booted target)
                  :: (body p1).1.1 ++ (teardown (body p1).2).1.1 /\
        run.2 = finally_outcome (Raised e) (teardown (body p1).2).1.2)).
Proof.
  intros arguments logger teardown Hpath Hexec Hread. cbv zeta.
  pose proof (boot_headless_spawned h self udid body companion_path c raw p1
                Hpath Hexec Hread) as Hrun.
  cbv zeta in Hrun. fold arguments in Hrun. fold logger in Hrun.
  pose proof (proj1 (terminate_process_trace h (_companion_teardown_timeout self)
                       logger p1)) as Hcalls.
  cbv zeta in Hcalls.
  split.
  - intros failure Hfail.
    assert (Hshape :
      boot_headless h self udid body =
      (Exec (command_line self companion_path arguments)
         :: Info logger Launched_process :: (teardown p1).1.1,
       finally_outcome (Raised failure) (teardown p1).1.2)).
    { destruct Hfail as [[Hdec ->]|(line & Hdec & Hparse)].
      - rewrite Hdec in Hrun. exact Hrun.
      - rewrite Hdec, Hparse in Hrun. exact Hrun. }
    rewrite Hshape. cbn [fst snd]. split; [reflexivity|]. split.
    + unfold teardown_calls in *. cbn [count opens_teardown]. exact Hcalls.
    + intros Hreturns. unfold teardown.
      rewrite terminate_process_outcome, Hreturns. reflexivity.
  - intros line target Hdec Hparse. rewrite Hdec, Hparse in Hrun.
    split.
    + intros a Hbody. rewrite Hbody in Hrun. rewrite Hrun. split; reflexivity.
    + intros e Hbody. rewrite Hbody in Hrun. rewrite Hrun. split; reflexivity.
Qed.

Lemma boot_headless_handshake_witness :
  (boot_headless (sample_host false (serving_child (b "{oops" ++ [Byte.x0a])))
     sample_companion (u "A1") (mret tt)).2
  = Raised (OtherError (u "JSONDecodeError")).
Proof.
  refine (proj2 (proj2 (proj1 (boot_headless_handshake
            (sample_host false (serving_child (b "{oops" ++ [Byte.x0a])))
            sample_companion (u "A1") (mret tt)
            (u "/usr/local/bin/idb_companion")
            (serving_child (b "{oops" ++ [Byte.x0a]))
            (b "{oops" ++ [Byte.x0a])
            (readline (launch (serving_child (b "{oops" ++ [Byte.x0a])))).2
            eq_refl eq_refl _)
            (OtherError (u "JSONDecodeError")) _)) _).
  - vm_compute. reflexivity.
  - right. exists (u "{oops" ++ [10%N]). split; vm_compute; reflexivity.
  - vm_compute. reflexivity.
Defined.



(** ** More on the catalog *)

(** [target_description] returns a target exactly when the listing holds
    one entry, and no more, with the udid asked for (one entry in all when
    no udid is asked for); the target returned is that entry, so it is in
    the listing and carries the udid asked for. *)
Theorem target_description_unique (h : Host) (self : Companion)
    (wanted : option str) (only : option OnlyFilter) (timeout : option Z)
    (t : list event) (all_details : list TargetDescription)
    (target : TargetDescription) :
  list_targets h self only timeout = (t, Returned all_details) ->
  let details :=
    match wanted with
    | Some x => filter (fun d => udid d = x) all_details
    | None => all_details
    end in
  ((target_description h self wanted only timeout).2 = Returned target <->
   details = [target]) /\
  ((target_description h self wanted only timeout).2 = Returned target ->
   target ∈ all_details /\ forall x, wanted = Some x -> udid target = x).
Proof.
  intros Hlist. cbv zeta.
  set (details := match wanted with
                  | Some x => filter (fun d => udid d = x) all_details
                  | None => all_details
                  end).
  assert (Hiff : (target_description h self wanted only timeout).2 = Returned target
                 <-> details = [target]).
  { unfold target_description, and_then, select_target. rewrite Hlist.
    cbn [fst snd]. fold details.
    destruct details as [|d [|d' rest]]; cbn; split; intros Heq;
      try discriminate; congruence. }
  split; [exact Hiff|].
  intros Hret. apply Hiff in Hret.
  assert (Hin : target ∈ details) by (rewrite Hret; left).
  subst details. destruct wanted as [x|].
  - apply list_elem_of_filter in Hin as [Hudid Hin].
    split; [exact Hin|]. intros x' [= <-]. exact Hudid.
  - split; [exact Hin|]. intros x'; discriminate.
Qed.

Lemma target_description_unique_witness :
  sample_target (u "A1")
  ∈ [sample_target (u "A1"); sample_target (u "B2")].
Proof.
  refine (proj1 (proj2 (target_description_unique
            (sample_host false (finishing_child sample_listing 0))
            sample_companion (Some (u "A1")) None None
            (list_targets (sample_host false (finishing_child sample_listing 0))
               sample_companion None None).1
            [sample_target (u "A1"); sample_target (u "B2")]
            (sample_target (u "A1")) _) _)).
  - vm_compute. reflexivity.
  - vm_compute. reflexivity.
Defined.

(** ** Edges of the one-shot executor *)

(** A negative timeout is truthy, so it is not replaced by the default: the
    wait fails at once, whatever the child would have done, a child that is
    still running gets SIGTERM, and the call raises the timeout failure with
    that negative timeout. *)
Theorem negative_timeout_times_out_at_once (h : Host) (self : Companion)
    (arguments : list str) (timeout : Z) (companion_path : str) (c : Child) :
  timeout < 0 ->
  _companion_path self = Some companion_path ->
  create_subprocess_exec h (command_line self companion_path arguments) = Ok c ->
  let logger := getChild (_logger self) (child_pid c) (join (u " ") arguments) in
  let teardown :=
    _terminate_process h (_companion_teardown_timeout self) logger (launch c) in
  let run := _run_companion_command h self arguments (Some timeout) in
  run.1 = Exec (command_line self companion_path arguments)
            :: Info logger Launched_process :: teardown.1.1 /\
  (returncode (launch c) = None -> signals SIGTERM run.1 = 1%nat) /\
  (teardown_returns h (_companion_teardown_timeout self) (launch c) = true ->
   run.2 = Raised (IdbException (Timed_out_after timeout (join (u " ") arguments)))).
Proof.
  intros Hneg Hpath Hexec. cbv zeta.
  rewrite (run_companion_command_steps h self arguments (Some timeout)
             companion_path c Hpath Hexec).
  cbv zeta.
  assert (Hlimit : or_default (Some timeout) (_companion_command_timeout self)
                   = timeout).
  { unfold or_default. destruct (Z.eqb_spec timeout 0); [lia|reflexivity]. }
  rewrite Hlimit.
  assert (Hwait : exits_within timeout (launch c) = None).
  { unfold exits_within. destruct (Z.leb_spec timeout 0); [reflexivity|lia]. }
  assert (Hstate : timed_out timeout (launch c) = launch c).
  { unfold timed_out. destruct (Z.leb_spec timeout 0); [reflexivity|lia]. }
  rewrite Hwait, Hstate. cbn [fst snd].
  split; [reflexivity|]. split.
  - intros Hrc. rewrite (terminate_process_running _ _ _ _ Hrc).
    destruct (exits_within _ (terminated (launch c)));
      [|destruct (timeout_is_builtin h)];
      unfold signals; cbn; repeat case_bool_decide; first [reflexivity|congruence].
  - intros Hreturns. rewrite terminate_process_outcome, Hreturns. reflexivity.
Qed.

Lemma negative_timeout_times_out_at_once_witness :
  (_run_companion_command (sample_host false (finishing_child (b "ok") 0))
     sample_companion [u "--boot"; u "A1"] (Some (-1))).2
  = Raised (IdbException (Timed_out_after (-1) (u "--boot A1"))).
Proof.
  exact (proj2 (proj2 (negative_timeout_times_out_at_once
           (sample_host false (finishing_child (b "ok") 0)) sample_companion
           [u "--boot"; u "A1"] (-1) (u "/usr/local/bin/idb_companion")
           (finishing_child (b "ok") 0) eq_refl eq_refl eq_refl)) eq_refl).
Defined.

(** The exit code is looked at before the output: when the companion exits
    with a code other than zero, [create] and [clone] raise the command
    failure whatever the output holds, and the parser is consulted only
    after an exit with code zero and a successful decoding. *)
Theorem create_failure_precedes_parsing (h : Host) (self : Companion)
    (device_type os_version : str) (timeout : option Z) (companion_path : str)
    (c : Child) (rc : Z) :
  let arguments := [u "--create"; device_type ++ u "," ++ os_version] in
  _companion_path self = Some companion_path ->
  create_subprocess_exec h (command_line self companion_path arguments) = Ok c ->
  exits_within (or_default timeout (_companion_command_timeout self)) (launch c)
  = Some rc ->
  (create h self device_type os_version timeout).2 =
  if decide (rc = 0) then
    match decode (child_stdout c) with
    | Some output => settle (parse_last_line h output)
    | None => Raised UnicodeDecodeError
    end
  else Raised (IdbException (Failed_to_run arguments)).
Proof.
  intros arguments Hpath Hexec Hwait. unfold create, and_then. fold arguments.
  rewrite (run_companion_command_steps h self arguments timeout companion_path c
             Hpath Hexec).
  cbv zeta. rewrite Hwait.
  destruct (decide (rc = 0)); cbn [fst snd]; [|reflexivity].
  destruct (decode (child_stdout c)); reflexivity.
Qed.

Lemma create_failure_precedes_parsing_witness :
  (create (sample_host false (finishing_child sample_creation 2)) sample_companion
     (u "iPhone 11") (u "13.0") None).2
  = Raised (IdbException (Failed_to_run [u "--create"; u "iPhone 11,13.0"])).
Proof.
  exact (create_failure_precedes_parsing
           (sample_host false (finishing_child sample_creation 2)) sample_companion
           (u "iPhone 11") (u "13.0") None (u "/usr/local/bin/idb_companion")
           (finishing_child sample_creation 2) 2 eq_refl eq_refl eq_refl).
Defined.

(** ** File commands *)

Lemma split_colon_once_spec (argument : str) :
  ((58%N ∉ argument) /\ File.split_colon_once argument = [argument]) \/
  (exists x y, (58%N ∉ x) /\ argument = x ++ 58%N :: y /\
               File.split_colon_once argument = [x; y]).
Proof.
  induction argument as [|c r IH].
  - left. split; [apply not_elem_of_nil|reflexivity].
  - cbn [File.split_colon_once]. destruct (N.eqb_spec c 58) as [->|Hc].
    + right. exists [], r. split; [apply not_elem_of_nil|]. split; reflexivity.
    + destruct IH as [[Hno ->]|(x & y & Hno & -> & ->)].
      * left. split; [|reflexivity].
        intros Hin. apply elem_of_cons in Hin as [Heq|Hin]; [congruence|contradiction].
      * right. exists (c :: x), y. split; [|split; reflexivity].
        intros Hin. apply elem_of_cons in Hin as [Heq|Hin]; [congruence|contradiction].
Qed.

(** [BundleWithPath.parse] loses nothing: writing the bundle id, a colon and
    the path gives the argument back. The bundle id is what stands before
    the first colon, so it holds no colon itself, and there is none exactly
    when the argument holds no colon; the path keeps every later colon. *)
Theorem parse_round_trip (argument : str) :
  File.render (File.parse argument) = argument /\
  (File.bundle_id (File.parse argument) = None <-> 58%N ∉ argument) /\
  (forall id, File.bundle_id (File.parse argument) = Some id -> 58%N ∉ id) /\
  (forall id rest, 58%N ∉ id ->
     File.parse (id ++ 58%N :: rest)
     = {| File.bundle_id := Some id; File.path := rest |}).
Proof.
  unfold File.parse, File.render.
  split; [|split; [|split]].
  - destruct (split_colon_once_spec argument) as [[_ ->]|(x & y & _ & -> & ->)];
      reflexivity.
  - destruct (split_colon_once_spec argument) as [[Hno ->]|(x & y & _ & -> & ->)];
      cbn.
    + split; [intros _; exact Hno|reflexivity].
    + split; [discriminate|]. intros Hno. exfalso. apply Hno.
      apply elem_of_app. right. left.
  - intros id.
    destruct (split_colon_once_spec argument) as [[_ ->]|(x & y & Hno & -> & ->)];
      cbn; [discriminate|]. intros [= <-]. exact Hno.
  - intros id rest Hno.
    destruct (split_colon_once_spec (id ++ 58%N :: rest))
      as [[Hnone _]|(x & y & Hx & Heq & ->)].
    + exfalso. apply Hnone. apply elem_of_app. right. left.
    + assert (Hsame : id = x /\ rest = y).
      { clear -Hno Hx Heq. revert x Hx Heq.
        induction id as [|c id IH]; intros [|d x] Hx Heq; cbn in Heq.
        - injection Heq as ->. split; reflexivity.
        - injection Heq as <- _. exfalso. apply Hx. left.
        - injection Heq as -> _. exfalso. apply Hno. left.
        - injection Heq as -> Heq.
          assert (Hno' : 58%N ∉ id) by (intros H; apply Hno; right; exact H).
          assert (Hx' : 58%N ∉ x) by (intros H; apply Hx; right; exact H).
          destruct (IH Hno' x Hx' Heq) as [-> ->].
          split; reflexivity. }
      destruct Hsame as [-> ->]. reflexivity.
Qed.

Lemma getattr_setattr_same args key v :
  File.getattr (File.setattr args key v) key = Some v.
Proof.
  induction args as [|[k v'] rest IH]; cbn.
  - rewrite bool_decide_true by reflexivity. reflexivity.
  - case_bool_decide as Hk; cbn.
    + rewrite bool_decide_true by exact Hk. reflexivity.
    + rewrite bool_decide_false by exact Hk. exact IH.
Qed.

Lemma getattr_setattr_other args key key' v :
  key' <> key ->
  File.getattr (File.setattr args key v) key' = File.getattr args key'.
Proof.
  intros Hne. induction args as [|[k v'] rest IH]; cbn.
  - rewrite bool_decide_false by congruence. reflexivity.
  - case_bool_decide as Hk; cbn.
    + subst k. rewrite !bool_decide_false by congruence. reflexivity.
    + rewrite IH. reflexivity.
Qed.

Lemma setattr_setattr args key v v' :
  File.setattr (File.setattr args key v) key v' = File.setattr args key v'.
Proof.
  induction args as [|[k w] rest IH]; cbn.
  - rewrite bool_decide_true by reflexivity. reflexivity.
  - case_bool_decide as Hk; cbn.
    + rewrite bool_decide_true by exact Hk. reflexivity.
    + rewrite bool_decide_false by exact Hk. rewrite IH. reflexivity.
Qed.

Lemma setattr_keys args key v :
  is_Some (File.getattr args key) ->
  (File.setattr args key v).*1 = args.*1.
Proof.
  induction args as [|[k w] rest IH]; cbn.
  - intros [? ?]; discriminate.
  - case_bool_decide as Hk; cbn; [reflexivity|].
    intros Hsome. rewrite (IH Hsome). reflexivity.
Qed.

Lemma fold_note_bundle_id values args :
  fold_left File.note_bundle_id values args =
  match last (File.carried_ids values) with
  | Some id => File.setattr args (u "bundle_id") (File.VStr id)
  | None => args
  end.
Proof.
  revert args. induction values as [|v values IH]; intros args; [reflexivity|].
  cbn [fold_left]. rewrite IH.
  destruct v as [| | | | |[[id|] p]|]; cbn [File.note_bundle_id File.carried_ids
                                             File.bundle_id]; try reflexivity.
  rewrite last_cons.
  destruct (last (File.carried_ids values)) as [id'|]; [|reflexivity].
  apply setattr_setattr.
Qed.

(** [_extract_bundle_id]: a bundle id given with [--bundle-id] is returned
    and nothing changes; without one, the bundle id of the last path
    argument that carries one is returned and stored in [args.bundle_id]
    (lists of arguments are opened once, the last one wins); when no
    argument carries one, [None] is returned and nothing changes. Without
    the attribute [bundle_id] the call raises [AttributeError]. *)
Theorem extract_bundle_id_last_wins (args : File.Namespace) :
  (forall v, File.getattr args (u "bundle_id") = Some v -> v <> File.VNone ->
     File._extract_bundle_id args = Ok (v, args)) /\
  (File.getattr args (u "bundle_id") = Some File.VNone ->
     File._extract_bundle_id args =
     Ok match last (File.carried_ids (File.flatten_values args)) with
        | Some id => (File.VStr id, File.setattr args (u "bundle_id") (File.VStr id))
        | None => (File.VNone, args)
        end) /\
  (File.getattr args (u "bundle_id") = None ->
     File._extract_bundle_id args = Raise (OtherError (u "AttributeError"))).
Proof.
  unfold File._extract_bundle_id. split; [|split].
  - intros v -> Hv. destruct v; [contradiction|reflexivity..].
  - intros Hnone. rewrite Hnone, fold_note_bundle_id.
    destruct (last (File.carried_ids (File.flatten_values args))) as [id|].
    + rewrite getattr_setattr_same. reflexivity.
    + rewrite Hnone. reflexivity.
  - intros ->. reflexivity.
Qed.

Lemma convert_value_bundle_free v : File.bundle_free (File.convert_value v) = true.
Proof.
  revert v. fix IH 1. intros [| | | | | bp | items]; cbn; try reflexivity.
  induction items as [|x xs IHxs]; cbn; [reflexivity|].
  rewrite IH, IHxs. reflexivity.
Qed.

Lemma converted_spec args :
  File.getattr (File.converted args) (u "bundle_id") = None /\
  Forall (fun kv => File.bundle_free kv.2 = true) (File.converted args) /\
  (File.converted args).*1 = filter (fun k => k <> u "bundle_id") args.*1 /\
  (forall k, k <> u "bundle_id" ->
     File.getattr (File.converted args) k
     = File.convert_value <$> File.getattr args k).
Proof.
  induction args as [|[k v] rest (IHnone & IHfree & IHkeys & IHget)].
  - repeat split; try reflexivity. constructor.
  - cbn [File.converted]. case_bool_decide as Hk.
    + split; [exact IHnone|]. split; [exact IHfree|]. split.
      * rewrite fmap_cons. cbn [fst].
        rewrite filter_cons_False by (intros H; apply H; exact Hk). exact IHkeys.
      * intros k' Hk'. cbn [File.getattr].
        rewrite bool_decide_false by congruence. apply IHget, Hk'.
    + split; [|split; [|split]].
      * cbn [File.getattr]. rewrite bool_decide_false by exact Hk. exact IHnone.
      * constructor; [apply convert_value_bundle_free|exact IHfree].
      * rewrite !fmap_cons. cbn [fst].
        rewrite filter_cons_True by exact Hk. rewrite IHkeys. reflexivity.
      * intros k' Hk'. cbn [File.getattr]. case_bool_decide; [reflexivity|].
        apply IHget, Hk'.
Qed.

Lemma extract_bundle_id_frame args v args' :
  File._extract_bundle_id args = Ok (v, args') ->
  args'.*1 = args.*1 /\
  (forall k, k <> u "bundle_id" -> File.getattr args' k = File.getattr args k).
Proof.
  unfold File._extract_bundle_id.
  destruct (File.getattr args (u "bundle_id")) as [w|] eqn:Hattr; [|discriminate].
  assert (Hsame : Ok (w, args) = Ok (v, args') ->
                  args'.*1 = args.*1 /\
                  (forall k, k <> u "bundle_id" ->
                     File.getattr args' k = File.getattr args k)).
  { intros [= _ <-]. split; [reflexivity|]. intros; reflexivity. }
  destruct w; try exact Hsame.
  rewrite fold_note_bundle_id.
  destruct (last (File.carried_ids (File.flatten_values args))) as [id|].
  - rewrite getattr_setattr_same. intros [= _ <-]. split.
    + apply setattr_keys. rewrite Hattr. eauto.
    + intros k Hk. apply getattr_setattr_other, Hk.
  - rewrite Hattr. intros [= _ <-]. split; [reflexivity|]. intros; reflexivity.
Qed.

(** What [_convert_args] hands to a file command. The namespace holds every
    attribute of the command line but [bundle_id], in the same order; no
    [BundleWithPath] is left in it at any depth of lists, each one is
    replaced by its path. The container is the bundle id when one was found
    and is not empty, and the value of [container_type] otherwise. *)
Theorem convert_args_result (args ns : File.Namespace) (container : File.value) :
  File._convert_args args = Ok (ns, container) ->
  File.getattr ns (u "bundle_id") = None /\
  Forall (fun kv => File.bundle_free kv.2 = true) ns /\
  ns.*1 = filter (fun k => k <> u "bundle_id") args.*1 /\
  (forall k, k <> u "bundle_id" ->
     File.getattr ns k = File.convert_value <$> File.getattr args k) /\
  exists bundle args',
    File._extract_bundle_id args = Ok (bundle, args') /\
    (File.truthy bundle = true -> container = bundle) /\
    (File.truthy bundle = false ->
     File.convert_value <$> File.getattr args (u "container_type") = Some container).
Proof.
  unfold File._convert_args.
  destruct (File._extract_bundle_id args) as [[bundle args']|e] eqn:Hextract;
    [|discriminate].
  destruct (extract_bundle_id_frame _ _ _ Hextract) as [Hkeys Hget].
  destruct (converted_spec args') as (Hnone & Hfree & Hckeys & Hcget).
  assert (Hshape : ns = File.converted args' ->
    File.getattr ns (u "bundle_id") = None /\
    Forall (fun kv => File.bundle_free kv.2 = true) ns /\
    ns.*1 = filter (fun k => k <> u "bundle_id") args.*1 /\
    (forall k, k <> u "bundle_id" ->
       File.getattr ns k = File.convert_value <$> File.getattr args k)).
  { intros ->. split; [exact Hnone|]. split; [exact Hfree|]. split.
    - rewrite Hckeys, Hkeys. reflexivity.
    - intros k Hk. rewrite (Hcget k Hk), (Hget k Hk). reflexivity. }
  destruct (File.truthy bundle) eqn:Htruthy.
  - intros [= <- <-].
    destruct (Hshape eq_refl) as (Hns1 & Hns2 & Hns3 & Hns4).
    repeat (split; [assumption|]).
    exists bundle, args'. split; [reflexivity|].
    split; [reflexivity|intros Hfalse; congruence].
  - destruct (File.getattr (File.converted args') (u "container_type"))
      as [ct|] eqn:Hct; [|discriminate].
    intros [= <- <-].
    destruct (Hshape eq_refl) as (Hns1 & Hns2 & Hns3 & Hns4).
    repeat (split; [assumption|]).
    exists bundle, args'. split; [reflexivity|].
    split; [intros Htrue; congruence|].
    intros _. rewrite <- Hct. symmetry. apply Hns4. discriminate.
Qed.

Lemma convert_args_result_witness :
  Forall (fun kv => File.bundle_free kv.2 = true)
    [(u "container_type", File.VNone);
     (u "src_paths", File.VList [File.VStr (u "a.txt"); File.VStr (u "b.txt")]);
     (u "dest_path", File.VStr (u "Documents"))].
Proof.
  refine (proj1 (proj2 (convert_args_result
            [(u "bundle_id", File.VNone); (u "container_type", File.VNone);
             (u "src_paths", File.VList [File.VStr (u "a.txt"); File.VStr (u "b.txt")]);
             (u "dest_path", File.VBundle (File.parse (u "com.apple.Maps:Documents")))]
            _ (File.VStr (u "com.apple.Maps")) _))).
  vm_compute. reflexivity.
Defined.

(** A path argument decides the container. With no [--bundle-id], a path
    written [<bundle>:<path>] with a bundle that is not empty selects the
    container of that bundle and leaves [<path>]; a path without a colon, or
    one that starts with a colon, falls back to the container type of the
    flags. *)
Theorem convert_args_of_path (argument : str)
    (container_type : option File.FileContainerType) :
  let flag := from_option File.VContainer File.VNone container_type in
  File._convert_args
    [(u "bundle_id", File.VNone); (u "container_type", flag);
     (u "path", File.VBundle (File.parse argument))]
  = Ok ([(u "container_type", flag);
         (u "path", File.VStr (File.path (File.parse argument)))],
        match File.bundle_id (File.parse argument) with
        | Some (c :: id) => File.VStr (c :: id)
        | _ => flag
        end).
Proof.
  destruct (File.parse argument) as [[[|c id]|] p];
    destruct container_type as [t|]; vm_compute; reflexivity.
Qed.

(** ** Listing targets on the command line *)

Lemma str_le_total a c : Target.str_le a c = false -> Target.str_le c a = true.
Proof.
  revert c. induction a as [|x a IH]; intros [|y c]; cbn; try congruence.
  destruct (N.ltb_spec x y); [discriminate|].
  destruct (N.eqb_spec x y) as [->|Hne].
  - rewrite N.ltb_irrefl, N.eqb_refl. apply IH.
  - intros _. destruct (N.ltb_spec y x); [reflexivity|lia].
Qed.

Lemma insert_by_name_perm target l :
  Target.insert_by_name target l ≡ₚ target :: l.
Proof.
  induction l as [|x l IH]; cbn; [reflexivity|].
  destruct (Target.str_le (name target) (name x)); [reflexivity|].
  rewrite IH. apply Permutation_swap.
Qed.

Lemma insert_by_name_sorted target l :
  Sorted (fun x y => Target.str_le (name x) (name y) = true) l ->
  Sorted (fun x y => Target.str_le (name x) (name y) = true)
    (Target.insert_by_name target l).
Proof.
  induction 1 as [|x l Hsorted IH Hhd]; cbn.
  - repeat constructor.
  - destruct (Target.str_le (name target) (name x)) eqn:Hle.
    + constructor; [constructor; assumption|]. constructor. exact Hle.
    + constructor; [exact IH|].
      destruct Hhd as [|y l Hxy]; cbn.
      * constructor. apply str_le_total, Hle.
      * destruct (Target.str_le (name target) (name y)).
        -- constructor. apply str_le_total, Hle.
        -- constructor. exact Hxy.
Qed.

(** Targets of one name stay in the order they had. *)
Lemma insert_by_name_stable n target l :
  Sorted (fun x y => Target.str_le (name x) (name y) = true) l ->
  filter (fun x => name x = n) (Target.insert_by_name target l)
  = filter (fun x => name x = n) (target :: l).
Proof.
  induction 1 as [|x l Hsorted IH Hhd]; [reflexivity|].
  cbn [Target.insert_by_name].
  destruct (Target.str_le (name target) (name x)) eqn:Hle; [reflexivity|].
  rewrite (filter_cons _ x), IH, (filter_cons _ target), (filter_cons _ target),
    (filter_cons _ x).
  destruct (decide (name x = n)) as [Hx|Hx]; [|reflexivity].
  destruct (decide (name target = n)) as [Ht|Ht]; [|reflexivity].
  rewrite Hx, Ht in Hle.
  assert (Target.str_le n n = true) as Hrefl.
  { clear. induction n as [|c n IH]; cbn; [reflexivity|].
    rewrite N.ltb_irrefl, N.eqb_refl. exact IH. }
  congruence.
Qed.

Lemma sorted_by_name_spec targets :
  Target.sorted_by_name targets ≡ₚ targets /\
  Sorted (fun x y => Target.str_le (name x) (name y) = true)
    (Target.sorted_by_name targets) /\
  (forall n, filter (fun x => name x = n) (Target.sorted_by_name targets)
             = filter (fun x => name x = n) targets).
Proof.
  induction targets as [|target rest (IHperm & IHsorted & IHstable)].
  - repeat split; constructor.
  - cbn [Target.sorted_by_name]. split; [|split].
    + rewrite insert_by_name_perm, IHperm. reflexivity.
    + apply insert_by_name_sorted, IHsorted.
    + intros n. rewrite (insert_by_name_stable n target _ IHsorted).
      rewrite !filter_cons, IHstable. reflexivity.
Qed.

(** The listing of the command line prints one line per target, each the
    chosen formatter applied to a target; the targets printed are the
    targets listed, every one once, in the order of their names, and targets
    of one name keep the order of the listing. With no target it prints "No
    available targets", and nothing at all under [--json]. *)
Theorem run_with_client_prints_sorted
    (human_format_target_info json_format_target_info : TargetDescription -> str)
    (json : bool) (targets : list TargetDescription) :
  let formatter :=
    if json then json_format_target_info else human_format_target_info in
  let printed :=
    Target.run_with_client human_format_target_info json_format_target_info
      json targets in
  (targets = [] ->
   printed = if json then [] else [u "No available targets"]) /\
  (targets <> [] ->
   exists ordered,
     printed = formatter <$> ordered /\
     ordered ≡ₚ targets /\
     Sorted (fun x y => Target.str_le (name x) (name y) = true) ordered /\
     (forall n, filter (fun x => name x = n) ordered
                = filter (fun x => name x = n) targets) /\
     length printed = length targets).
Proof.
  cbv zeta. unfold Target.run_with_client. split.
  - intros ->. destruct json; reflexivity.
  - intros Hne. destruct targets as [|target rest]; [contradiction|].
    cbn [length Nat.eqb].
    destruct (sorted_by_name_spec (target :: rest)) as (Hperm & Hsorted & Hstable).
    exists (Target.sorted_by_name (target :: rest)).
    split; [reflexivity|]. split; [exact Hperm|]. split; [exact Hsorted|].
    split; [exact Hstable|].
    rewrite length_fmap. rewrite Hperm. reflexivity.
Qed.

(** ** The first malformed line *)

Lemma parse_lines_first_failure h lines good bad rest targets e :
  filter (fun l : str => l <> []) (strip <$> lines) = good ++ bad :: rest ->
  Forall2 (fun line target => target_description_from_json h line = Ok target)
    good targets ->
  target_description_from_json h bad = Raise e ->
  parse_lines h lines = Raise e.
Proof.
  revert good targets. induction lines as [|line lines IH]; intros good targets.
  - cbn. intros Heq. destruct good; discriminate.
  - cbn [parse_lines fmap list_fmap]. rewrite nonblank_cons.
    destruct (length (strip line) =? 0)%nat; [apply IH|].
    intros Heq Hgood Hbad. destruct Hgood as [|g target good targets Hg Hgood].
    + cbn in Heq. injection Heq as -> _. rewrite Hbad. reflexivity.
    + cbn in Heq. injection Heq as -> Heq. rewrite Hg.
      rewrite (IH good targets Heq Hgood Hbad). reflexivity.
Qed.

(** [list_targets] raises what the parser raises on the first malformed
    line: when the lines before it all parse, the failure of that line is
    the failure of the call, whatever the later lines hold. *)
Theorem list_targets_first_failure (h : Host) (self : Companion)
    (only : option OnlyFilter) (timeout : option Z) (t : list event)
    (output : str) (good : list str) (bad : str) (rest : list str)
    (targets : list TargetDescription) (e : exn) :
  _run_companion_command h self ([u "--list"; u "1"] ++ _only_arg_from_filter only)
    timeout = (t, Returned output) ->
  nonblank_lines output = good ++ bad :: rest ->
  Forall2 (fun line target => target_description_from_json h line = Ok target)
    good targets ->
  target_description_from_json h bad = Raise e ->
  list_targets h self only timeout = (t, Raised e).
Proof.
  intros Hrun Hlines Hgood Hbad. unfold list_targets, and_then.
  rewrite Hrun. cbn [fst snd].
  rewrite (parse_lines_first_failure h _ good bad rest targets e Hlines Hgood Hbad).
  reflexivity.
Qed.

Lemma list_targets_first_failure_witness :
  (list_targets (sample_host false (finishing_child sample_broken_listing 0))
     sample_companion None None).2 = Raised (OtherError (u "JSONDecodeError")).
Proof.
  refine (f_equal snd (list_targets_first_failure
            (sample_host false (finishing_child sample_broken_listing 0))
            sample_companion None None
            (_run_companion_command
               (sample_host false (finishing_child sample_broken_listing 0))
               sample_companion [u "--list"; u "1"] None).1
            (sample_json_line (u "A1") ++ [10%N] ++ u "{oops" ++ [10%N]
             ++ sample_json_line (u "B2") ++ [10%N])
            [sample_json_line (u "A1")] (u "{oops") [sample_json_line (u "B2")]
            [sample_target (u "A1")] (OtherError (u "JSONDecodeError")) _ _ _ _)).
  - vm_compute. reflexivity.
  - vm_compute. reflexivity.
  - constructor; [vm_compute; reflexivity|constructor].
  - vm_compute. reflexivity.
Defined.
